(** * go-asterisk-agi: the AGI reply codec, the environment parser, the
      session, the convenience operations and the FastAGI server, embedded
      from the Go source.

    Go strings are byte sequences; they are modelled as [list ascii] (one
    [ascii] per byte), and string literals are read through a coercion.
    Go's [int] is taken to be 64 bits wide and is modelled in [Z]. *)

From Stdlib Require Import ZArith Ascii DecimalString.
From stdpp Require Import gmap strings list.

(* stdpp's solvers clear hypotheses that may be gone already *)
#[local] Set Warnings "-clear-no-such-hyp".

Abbreviation gostring := (list ascii).
Coercion String.list_ascii_of_string : string >-> list.
Arguments String.list_ascii_of_string : simpl never.

Definition LF : ascii := "010"%char.   (* line feed *)
Definition DQ : ascii := "034"%char.   (* double quote *)
Definition BS : ascii := "092"%char.   (* backslash *)
Definition nl : gostring := [LF].

(** ** Errors, panics and results *)

Inductive numErr := ErrSyntax | ErrRange.

Inductive error : Type :=
  | EOF                                       (* io.EOF *)
  | ErrClosed                                 (* write on a broken transport *)
  | NumError (fn num : gostring) (e : numErr) (* strconv.NumError *)
  | Errorf (msg : gostring)                   (* errors.Errorf, fmt.Errorf *)
  | Wrap (cause : error) (msg : gostring).    (* errors.Wrap *)

Inductive panic :=
  | SliceBounds (lo len : Z)   (* slice bounds out of range [lo:len] *)
  | IndexRange (i len : Z)     (* index out of range [i] with length len *)
  | NilDeref.                  (* call of a nil func value *)

Inductive result (A : Type) : Type :=
  | Ok (a : A)
  | Err (e : error)
  | Panic (p : panic).
Arguments Ok {A} a.
Arguments Err {A} e.
Arguments Panic {A} p.

Definition rbind {A B} (m : result A) (k : A → result B) : result B :=
  match m with
  | Ok a => k a
  | Err e => Err e
  | Panic p => Panic p
  end.

Notation "'let*' x := m 'in' k" := (rbind m (fun x => k))
  (at level 10, x pattern, m at level 100, k at level 200).

(** ** Go slice expressions and indexing *)

(** [s[lo:]] *)
Definition sliceFrom (s : gostring) (lo : Z) : result gostring :=
  if ((0 <=? lo) && (lo <=? Z.of_nat (length s)))%Z
  then Ok (drop (Z.to_nat lo) s)
  else Panic (SliceBounds lo (Z.of_nat (length s))).

(** [s[lo:hi]] *)
Definition slice (s : gostring) (lo hi : Z) : result gostring :=
  if negb ((0 <=? hi) && (hi <=? Z.of_nat (length s)))%Z
  then Panic (SliceBounds hi (Z.of_nat (length s)))
  else if negb ((0 <=? lo) && (lo <=? hi))%Z
  then Panic (SliceBounds lo hi)
  else Ok (take (Z.to_nat (hi - lo)) (drop (Z.to_nat lo) s)).

(** [a[i]] on a slice of strings *)
Definition index (a : list gostring) (i : nat) : result gostring :=
  match a !! i with
  | Some x => Ok x
  | None => Panic (IndexRange (Z.of_nat i) (Z.of_nat (length a)))
  end.

(** ** Package unicode/utf8 *)

Module utf8.

Definition byte (z : Z) : ascii := ascii_of_N (Z.to_N (Z.land z 255)).

(** [utf8.AppendRune], which is also the conversion [string(r)] of an
    integer: code points outside the Unicode range and surrogates are
    encoded as U+FFFD. *)
Definition EncodeRune (r : Z) : gostring :=
  if ((r <? 0) || (0x10FFFF <? r) || ((0xD800 <=? r) && (r <=? 0xDFFF)))%Z
  then [byte 0xEF; byte 0xBF; byte 0xBD]
  else if (r <? 0x80)%Z then [byte r]
  else if (r <? 0x800)%Z then
    [byte (Z.lor 0xC0 (Z.shiftr r 6));
     byte (Z.lor 0x80 (Z.land r 0x3F))]
  else if (r <? 0x10000)%Z then
    [byte (Z.lor 0xE0 (Z.shiftr r 12));
     byte (Z.lor 0x80 (Z.land (Z.shiftr r 6) 0x3F));
     byte (Z.lor 0x80 (Z.land r 0x3F))]
  else
    [byte (Z.lor 0xF0 (Z.shiftr r 18));
     byte (Z.lor 0x80 (Z.land (Z.shiftr r 12) 0x3F));
     byte (Z.lor 0x80 (Z.land (Z.shiftr r 6) 0x3F));
     byte (Z.lor 0x80 (Z.land r 0x3F))].

End utf8.

(** ** Package unicode *)

Module unicode.

(** The code points for which [unicode.IsSpace] holds: the Latin-1
    spaces and the White_Space table. *)
Definition White_Space : list Z :=
  [0x09; 0x0A; 0x0B; 0x0C; 0x0D; 0x20; 0x85; 0xA0; 0x1680;
   0x2000; 0x2001; 0x2002; 0x2003; 0x2004; 0x2005; 0x2006; 0x2007;
   0x2008; 0x2009; 0x200A; 0x2028; 0x2029; 0x202F; 0x205F; 0x3000]%Z.

End unicode.

(** ** Package strings *)

Module strings.

Fixpoint HasPrefix (s prefix : gostring) {struct prefix} : bool :=
  match prefix, s with
  | [], _ => true
  | p :: prefix', c :: s' => bool_decide (c = p) && HasPrefix s' prefix'
  | _ :: _, [] => false
  end.

Definition HasSuffix (s suffix : gostring) : bool :=
  HasPrefix (reverse s) (reverse suffix).

(** [strings.CutPrefix]: the rest of [s] after [prefix], when [s] starts
    with it. *)
Fixpoint CutPrefix (s prefix : gostring) {struct prefix}
    : option gostring :=
  match prefix, s with
  | [], _ => Some s
  | p :: prefix', c :: s' =>
      if bool_decide (c = p) then CutPrefix s' prefix' else None
  | _ :: _, [] => None
  end.

Definition TrimPrefix (s prefix : gostring) : gostring :=
  default s (CutPrefix s prefix).

(** Byte offset of the first occurrence of [sep] in [s] ([None] where Go
    returns -1). *)
Fixpoint Index (s sep : gostring) : option nat :=
  if HasPrefix s sep then Some 0
  else match s with
       | [] => None
       | _ :: s' => S <$> Index s' sep
       end.

(** The loop of [genSplit] for a non-empty separator: at most [n]
    pieces, the last one being the unsplit remainder. *)
Fixpoint splitUpTo (n : nat) (s sep : gostring) : list gostring :=
  match n with
  | 0 => []
  | 1 => [s]
  | S n' =>
      match Index s sep with
      | None => [s]
      | Some m => take m s :: splitUpTo n' (drop (m + length sep) s) sep
      end
  end.

(** [strings.SplitN] for a non-empty separator (every call in this
    package passes a one-byte separator): [n = 0] gives no piece, a
    negative [n] all of them. *)
Definition SplitN (s sep : gostring) (n : Z) : list gostring :=
  if (n <? 0)%Z then splitUpTo (S (length s)) s sep
  else splitUpTo (Z.to_nat n) s sep.

(** [strings.ReplaceAll] for a non-empty [old] (every call in this
    package passes one): the occurrences of [old] are replaced from left
    to right, without overlap.  [skip] counts the bytes of a replaced
    occurrence that are still to be dropped. *)
Fixpoint replaceFrom (skip : nat) (s old new : gostring) : gostring :=
  match s with
  | [] => []
  | c :: s' =>
      match skip with
      | S k => replaceFrom k s' old new
      | 0 =>
          if HasPrefix s old
          then new ++ replaceFrom (length old - 1) s' old new
          else c :: replaceFrom 0 s' old new
      end
  end.

Definition ReplaceAll (s old new : gostring) : gostring :=
  replaceFrom 0 s old new.

(** The UTF-8 encodings of the white space code points.  A rune decoded
    at the start (or at the end) of a string is white space exactly when
    the string starts (ends) with one of these: the decoder accepts
    shortest encodings only, and yields U+FFFD for any other byte. *)
Definition spaceRunes : list gostring :=
  utf8.EncodeRune <$> unicode.White_Space.

(** The rest of [s] after the first of [ps] that it starts with. *)
Fixpoint cutAny (ps : list gostring) (s : gostring) : option gostring :=
  match ps with
  | [] => None
  | p :: ps' =>
      match CutPrefix s p with
      | Some r => Some r
      | None => cutAny ps' s
      end
  end.

(** Strips leading members of [ps] for as long as there is one; [fuel]
    bounds the number of members stripped. *)
Fixpoint trimN (ps : list gostring) (fuel : nat) (s : gostring) : gostring :=
  match fuel with
  | 0 => s
  | S fuel' =>
      match cutAny ps s with
      | Some r => trimN ps fuel' r
      | None => s
      end
  end.

(** [strings.TrimLeftFunc(s, unicode.IsSpace)] *)
Definition TrimLeftSpace (s : gostring) : gostring :=
  trimN spaceRunes (length s) s.

(** [strings.TrimRightFunc(s, unicode.IsSpace)] *)
Definition TrimRightSpace (s : gostring) : gostring :=
  reverse (trimN (reverse <$> spaceRunes) (length s) (reverse s)).

(** [strings.TrimSpace]: all leading and trailing white space removed. *)
Definition TrimSpace (s : gostring) : gostring :=
  TrimRightSpace (TrimLeftSpace s).

End strings.

(** ** Package strconv *)

Module strconv.

Definition digitVal (c : ascii) : option Z :=
  let n := Z.of_N (N_of_ascii c) in
  if ((48 <=? n) && (n <=? 57))%Z then Some (n - 48)%Z else None.

Definition maxUint64 : Z := (2 ^ 64 - 1)%Z.

(** The digit loop of [ParseUint(s, 10, 64)], from the accumulator [n]. *)
Fixpoint parseDigits (s : gostring) (n : Z) : numErr + Z :=
  match s with
  | [] => inr n
  | c :: s' =>
      match digitVal c with
      | None => inl ErrSyntax
      | Some d =>
          if (maxUint64 / 10 + 1 <=? n)%Z then inl ErrRange
          else let n1 := (n * 10 + d)%Z in
               if (maxUint64 <? n1)%Z then inl ErrRange
               else parseDigits s' n1
      end
  end.

(** [strconv.Atoi]: an optional sign and decimal digits, within the
    range of a 64-bit [int]. *)
Definition Atoi (s : gostring) : error + Z :=
  let '(neg, digits) :=
    match s with
    | c :: s' =>
        if bool_decide (c = "-"%char) then (true, s')
        else if bool_decide (c = "+"%char) then (false, s')
        else (false, s)
    | [] => (false, [])
    end in
  match digits with
  | [] => inl (NumError "Atoi" s ErrSyntax)
  | _ =>
      match parseDigits digits 0 with
      | inl e => inl (NumError "Atoi" s e)
      | inr un =>
          if neg then
            if (2 ^ 63 <? un)%Z then inl (NumError "Atoi" s ErrRange)
            else inr (- un)%Z
          else
            if (2 ^ 63 <=? un)%Z then inl (NumError "Atoi" s ErrRange)
            else inr un
      end
  end.

(** The verb [%d] of [fmt.Sprintf]. *)
Definition FormatInt (z : Z) : gostring :=
  NilEmpty.string_of_int (Z.to_int z).

End strconv.


(** ** Package bufio *)

Module bufio.

(** [Reader.ReadString(delim)] on a reader that still holds the
    bytes [r]: the bytes up to and including the first [delim], the bytes
    left in the reader, and [io.EOF] when the stream ends before a
    delimiter is found. *)
Fixpoint ReadString (delim : ascii) (r : gostring)
    : gostring * gostring * option error :=
  match r with
  | [] => ([], [], Some EOF)
  | c :: r' =>
      if bool_decide (c = delim) then ([c], r', None)
      else let '(line, rest, err) := ReadString delim r' in
           (c :: line, rest, err)
  end.

End bufio.

(** ** Package context *)

Module context.

(** The contexts this package builds: the background context, and
    contexts derived from a parent by [WithCancel] or [WithTimeout].
    [cancelled] records whether the context's own cancel function has
    been called. *)
Inductive Context :=
  | Background
  | cancelCtx (parent : Context) (cancelled : bool)
  | timerCtx (parent : Context) (d : Z) (cancelled : bool).

Definition WithCancel (parent : Context) : Context := cancelCtx parent false.
Definition WithTimeout (parent : Context) (d : Z) : Context :=
  timerCtx parent d false.

(** Calling the [CancelFunc] returned with a context: the first call
    cancels it, later calls do nothing. *)
Definition cancel (c : Context) : Context :=
  match c with
  | Background => Background
  | cancelCtx p _ => cancelCtx p true
  | timerCtx p d _ => timerCtx p d true
  end.

(** Whether [ctx.Done()] is closed by a cancel call (the expiry of a
    timer is not an event of this model). *)
Fixpoint Done (c : Context) : bool :=
  match c with
  | Background => false
  | cancelCtx p b => b || Done p
  | timerCtx p _ b => b || Done p
  end.

End context.

(** ** Package agi: sessions (the reply codec and the environment parser) *)

Module agi.

Export context.

Definition Second : Z := 1000000000.

(** An [io.Writer]: the bytes written so far, and whether writes fail. *)
Record Writer := mkWriter {
  written : gostring;
  broken : bool
}.

(** [fmt.Fprintf(w, "%s", data)] *)
Definition Fprint (w : Writer) (data : gostring) : error + Writer :=
  if broken w then inl ErrClosed
  else inr (mkWriter (written w ++ data) false).

(** The function value stored in [cancelFunc]: it cancels the context
    stored in the same session. *)
Inductive CancelFunc := CancelSessionCtx.

Record AgiSession := mkSession {
  reader : gostring;            (* unread bytes of the bufio.Reader *)
  writer : Writer;
  env : gmap gostring gostring;
  variables : gmap gostring gostring;
  debugMode : bool;
  timeout : Z;                  (* time.Duration, in nanoseconds *)
  ctx : option Context;         (* None is the nil interface *)
  cancelFunc : option CancelFunc; (* None is the nil func *)
  stderr : gostring             (* what the session printed to os.Stderr *)
}.

Definition set_reader (r : gostring) (s : AgiSession) : AgiSession :=
  mkSession r (writer s) (env s) (variables s) (debugMode s) (timeout s)
            (ctx s) (cancelFunc s) (stderr s).
Definition set_writer (w : Writer) (s : AgiSession) : AgiSession :=
  mkSession (reader s) w (env s) (variables s) (debugMode s) (timeout s)
            (ctx s) (cancelFunc s) (stderr s).
Definition set_env (e : gmap gostring gostring) (s : AgiSession) : AgiSession :=
  mkSession (reader s) (writer s) e (variables s) (debugMode s) (timeout s)
            (ctx s) (cancelFunc s) (stderr s).
Definition set_debugMode (b : bool) (s : AgiSession) : AgiSession :=
  mkSession (reader s) (writer s) (env s) (variables s) b (timeout s)
            (ctx s) (cancelFunc s) (stderr s).
Definition set_timeout (d : Z) (s : AgiSession) : AgiSession :=
  mkSession (reader s) (writer s) (env s) (variables s) (debugMode s) d
            (ctx s) (cancelFunc s) (stderr s).
Definition set_ctx (c : option Context) (s : AgiSession) : AgiSession :=
  mkSession (reader s) (writer s) (env s) (variables s) (debugMode s)
            (timeout s) c (cancelFunc s) (stderr s).
Definition eprint (msg : gostring) (s : AgiSession) : AgiSession :=
  mkSession (reader s) (writer s) (env s) (variables s) (debugMode s)
            (timeout s) (ctx s) (cancelFunc s) (stderr s ++ msg).

Record AgiResponse := mkResponse {
  Status : Z;
  Result : Z;
  Data : gostring;
  Raw : gostring;
  EndPos : Z;
  Digits : gostring;
  Timeout : bool
}.

(** A method of the session: its result and the session afterwards. *)
Definition method (A : Type) : Type := AgiSession → result A * AgiSession.

(** [readEnvironment]: the loop, one line per unit of [fuel] (the value
    at [0] is never reached from [readEnvironment], see
    [readEnvLoop_fuel]). *)
Fixpoint readEnvLoop (fuel : nat) (s : AgiSession) : result unit * AgiSession :=
  match fuel with
  | 0 => (Err EOF, s)
  | S fuel' =>
      let '(line, rest, err) := bufio.ReadString LF (reader s) in
      let s := set_reader rest s in
      match err with
      | Some e => (Err (Wrap e "failed to read environment line"), s)
      | None =>
          let line := strings.TrimSpace line in
          if bool_decide (line = []) then (Ok (), s)
          else
            match strings.SplitN line ":" 2 with
            | [p0; p1] =>
                let key := strings.TrimSpace p0 in
                let value := strings.TrimSpace p1 in
                readEnvLoop fuel' (set_env (<[key := value]> (env s)) s)
            | _ =>
                (Err (Errorf ("invalid environment line: " ++ line)), s)
            end
      end
  end.

(** Every line read holds at least one byte, so the loop runs at most
    once per unread byte, and once more for the end of the stream. *)
Definition readEnvironment : method unit :=
  fun s => readEnvLoop (S (length (reader s))) s.

(** [NewWithContext], reading the environment from [stdin].  On the
    failing path the context is cancelled and the session dropped. *)
Definition NewWithContext (stdin : gostring) (parent : Context)
    : result AgiSession :=
  let s := {| reader := stdin;
              writer := mkWriter [] false;
              env := ∅;
              variables := ∅;
              debugMode := false;
              timeout := 30 * Second;
              ctx := Some (WithCancel parent);
              cancelFunc := Some CancelSessionCtx;
              stderr := [] |} in
  match readEnvironment s with
  | (Ok _, s') => Ok s'
  | (Err err, _) => Err (Wrap err "failed to read AGI environment")
  | (Panic p, _) => Panic p
  end.

Definition NewAgiSession (stdin : gostring) : result AgiSession :=
  NewWithContext stdin Background.

(** [parseResponse].  The test [len(parts) != 2] and the later uses of
    [parts[0]] and [parts[1]] are one pattern match on [parts]. *)
Definition parseResponse (line : gostring) : result AgiResponse :=
  let line := strings.TrimSpace line in
  if negb (strings.HasPrefix line "200") then
    Err (Errorf ("invalid response: " ++ line))
  else
    let* tail := sliceFrom line 4 in
    match strings.SplitN tail " " 2 with
    | [p0; p1] =>
        match strconv.Atoi p0 with
        | inl err => Err (Wrap err "failed to parse result")
        | inr result =>
            Ok {| Status := 1;
                  Result := result;
                  Data := strings.TrimSpace p1;
                  Raw := line;
                  EndPos := 0;
                  Digits := [];
                  Timeout := false |}
        end
    | _ => Err (Errorf ("invalid response format: " ++ line))
    end.

(** [execute]: one command written, one reply line read and parsed.  The
    session mutex is held for the whole body; the model runs one caller
    at a time. *)
Definition execute (command : gostring) : method AgiResponse :=
  fun s =>
    let s := if debugMode s
             then eprint ("AGI Command: " ++ command ++ nl) s else s in
    match Fprint (writer s) (command ++ nl) with
    | inl err => (Err (Wrap err "failed to send command"), s)
    | inr w =>
        let s := set_writer w s in
        let '(line, rest, err) := bufio.ReadString LF (reader s) in
        let s := set_reader rest s in
        match err with
        | Some e => (Err (Wrap e "failed to read response"), s)
        | None =>
            let s := if debugMode s
                     then eprint ("AGI Response: " ++ line) s else s in
            (parseResponse line, s)
        end
    end.

(** [Close] *)
Definition Close : method unit :=
  fun s =>
    match cancelFunc s with
    | None => (Panic NilDeref, s)
    | Some CancelSessionCtx => (Ok (), set_ctx (cancel <$> ctx s) s)
    end.

Definition SetDebug (enabled : bool) (s : AgiSession) : AgiSession :=
  set_debugMode enabled s.

Definition SetTimeout (d : Z) (s : AgiSession) : AgiSession :=
  set_timeout d s.

(** [GetEnv]: a Go map yields the zero value for an absent key. *)
Definition GetEnv (s : AgiSession) (key : gostring) : gostring :=
  default [] (env s !! key).

(** ** Package agi: helpers (util.go) *)

Definition EscapeString (s : gostring) : gostring :=
  let s := strings.ReplaceAll s [BS] [BS; BS] in
  let s := strings.ReplaceAll s [DQ] [BS; DQ] in
  s.

Definition UnescapeString (s : gostring) : gostring :=
  let s := strings.ReplaceAll s [BS; DQ] [DQ] in
  let s := strings.ReplaceAll s [BS; BS] [BS] in
  s.

(** [ParseAGIResult]; its error for an unparseable code is built with
    [fmt.Errorf] from the [strconv] error, kept here as the cause. *)
Definition ParseAGIResult (s : gostring) : result (Z * gostring) :=
  if negb (strings.HasPrefix s "200") then
    Err (Errorf ("invalid AGI response: " ++ s))
  else
    let s := strings.TrimPrefix s "200 " in
    if negb (strings.HasPrefix s "result=") then
      Err (Errorf ("invalid AGI response format: " ++ s))
    else
      let s := strings.TrimPrefix s "result=" in
      let parts := strings.SplitN s " " 2 in
      let* p0 := index parts 0 in
      match strconv.Atoi p0 with
      | inl err => Err (Wrap err "failed to parse result code")
      | inr result =>
          if 1 <? length parts then
            let* p1 := index parts 1 in
            let data := strings.TrimSpace p1 in
            if strings.HasPrefix data "(" && strings.HasSuffix data ")"
            then let* data := slice data 1 (Z.of_nat (length data) - 1) in
                 Ok (result, data)
            else Ok (result, data)
          else Ok (result, [])
      end.

(** ** Package agi: the convenience operations that wait for input *)

(** The conversion [string(resp.Result)] of an [int]. *)
Definition runeString (r : Z) : gostring := utf8.EncodeRune r.

Definition WaitForDigit (timeout : Z) : method gostring :=
  fun s =>
    match execute ("WAIT FOR DIGIT " ++ strconv.FormatInt timeout) s with
    | (Ok resp, s) =>
        if bool_decide (Status resp = 0%Z) then (Ok [], s)
        else (Ok (runeString (Result resp)), s)
    | (Err err, s) => (Err err, s)
    | (Panic p, s) => (Panic p, s)
    end.

Definition GetData (filename : gostring) (timeout maxDigits : Z)
    : method gostring :=
  fun s =>
    match execute ("GET DATA " ++ filename ++ " " ++ strconv.FormatInt timeout
                   ++ " " ++ strconv.FormatInt maxDigits) s with
    | (Ok resp, s) => (Ok (Data resp), s)
    | (Err err, s) => (Err err, s)
    | (Panic p, s) => (Panic p, s)
    end.

Definition GetOption (filename escapeDigits : gostring) (timeout : Z)
    : method gostring :=
  fun s =>
    let cmd := "GET OPTION " ++ filename ++ " " ++ [DQ] ++ escapeDigits
               ++ [DQ] ++ " " ++ strconv.FormatInt timeout in
    match execute cmd s with
    | (Ok resp, s) =>
        if bool_decide (Result resp = (-1)%Z) then (Ok [], s)
        else (Ok (runeString (Result resp)), s)
    | (Err err, s) => (Err err, s)
    | (Panic p, s) => (Panic p, s)
    end.

Definition SayNumber (number : Z) (escapeDigits : gostring)
    : method gostring :=
  fun s =>
    let cmd := "SAY NUMBER " ++ strconv.FormatInt number ++ " " ++ [DQ]
               ++ escapeDigits ++ [DQ] in
    match execute cmd s with
    | (Ok resp, s) =>
        if bool_decide (Result resp = (-1)%Z) then (Ok [], s)
        else (Ok (runeString (Result resp)), s)
    | (Err err, s) => (Err err, s)
    | (Panic p, s) => (Panic p, s)
    end.

Definition SayDigits (digits escapeDigits : gostring) : method gostring :=
  fun s =>
    let cmd := "SAY DIGITS " ++ digits ++ " " ++ [DQ] ++ escapeDigits
               ++ [DQ] in
    match execute cmd s with
    | (Ok resp, s) =>
        if bool_decide (Result resp = (-1)%Z) then (Ok [], s)
        else (Ok (runeString (Result resp)), s)
    | (Err err, s) => (Err err, s)
    | (Panic p, s) => (Panic p, s)
    end.

Definition RecordFile (filename format escapeDigits : gostring)
    (timeout offset beep silence : Z) : method gostring :=
  fun s =>
    let cmd := "RECORD FILE " ++ filename ++ " " ++ format ++ " " ++ [DQ]
               ++ escapeDigits ++ [DQ] ++ " " ++ strconv.FormatInt timeout
               ++ " " ++ strconv.FormatInt offset
               ++ " " ++ strconv.FormatInt beep
               ++ " " ++ strconv.FormatInt silence in
    match execute cmd s with
    | (Ok resp, s) =>
        if bool_decide (Result resp = (-1)%Z) then (Ok [], s)
        else (Ok (runeString (Result resp)), s)
    | (Err err, s) => (Err err, s)
    | (Panic p, s) => (Panic p, s)
    end.

Definition ReceiveChar (timeout : Z) : method gostring :=
  fun s =>
    match execute ("RECEIVE CHAR " ++ strconv.FormatInt timeout) s with
    | (Ok resp, s) =>
        if bool_decide (Result resp = (-1)%Z) then (Ok [], s)
        else (Ok (runeString (Result resp)), s)
    | (Err err, s) => (Err err, s)
    | (Panic p, s) => (Panic p, s)
    end.

(** ** Package agi: the connection worker of the FastAGI server *)

(** A [net.Conn]: the bytes the peer sent and has yet to be read. *)
Record Conn := mkConn {
  inbound : gostring
}.

(** What a worker does that is visible outside its session, in order. *)
Inductive event :=
  | SetDeadline (d : Z)                 (* conn.SetDeadline(now + d) *)
  | Printf (msg : gostring) (e : error) (* fmt.Printf(msg, err) *)
  | Handle (c : Context) (s : AgiSession) (* s.handler.Handle(ctx, session) *)
  | CtxCancel                           (* the deferred cancel() *)
  | ConnClose                           (* the deferred conn.Close() *)
  | WgDone.                             (* the deferred s.wg.Done() *)

(** The session that [handleConnection] builds on a connection. *)
Definition workerSession (conn : Conn) : AgiSession :=
  {| reader := inbound conn;
     writer := mkWriter [] false;
     env := ∅;
     variables := ∅;
     debugMode := false;
     timeout := 30 * Second;
     ctx := None;
     cancelFunc := None;
     stderr := [] |}.

Definition Handler : Type := Context → AgiSession → result unit * AgiSession.

(** [handleConnection]: the events of one worker, and the panic it ends
    with, if any.  The deferred calls run last, in reverse order. *)
Definition handleConnection (handler : Handler) (serverCtx : Context)
    (conn : Conn) : list event * option panic :=
  let session := workerSession conn in
  match readEnvironment session with
  | (Err err, _) =>
      ([SetDeadline (30 * Second);
        Printf "Failed to read environment: %v" err;
        ConnClose; WgDone], None)
  | (Panic p, _) =>
      ([SetDeadline (30 * Second); ConnClose; WgDone], Some p)
  | (Ok _, session) =>
      let ctx := WithTimeout serverCtx (timeout session) in
      match handler ctx session with
      | (Ok _, _) =>
          ([SetDeadline (30 * Second); Handle ctx session;
            CtxCancel; ConnClose; WgDone], None)
      | (Err err, _) =>
          ([SetDeadline (30 * Second); Handle ctx session;
            Printf "Handler error: %v" err;
            CtxCancel; ConnClose; WgDone], None)
      | (Panic p, _) =>
          ([SetDeadline (30 * Second); Handle ctx session;
            CtxCancel; ConnClose; WgDone], Some p)
      end
  end.

(** Whether the worker called the handler. *)
Definition handlerInvoked (tr : list event) : bool :=
  existsb (fun e => match e with Handle _ _ => true | _ => false end) tr.

End agi.

(** ** Package agi: the FastAGI server, as a transition system

    [Serve], [Stop] and the workers run concurrently.  A state holds what
    they share (the server context, the listener, the wait group) and the
    program point of each of them; a step is one statement of one of them.
    The statements are atomic: [cancelFunc], [Listener.Close],
    [WaitGroup.Add], [WaitGroup.Done] and [WaitGroup.Wait] are safe for
    concurrent use. *)

Module server.

(** Program points of [Serve]. *)
Inductive servePc :=
  | Accepting                          (* in s.listener.Accept() *)
  | Accepted                           (* a connection is accepted, before s.wg.Add(1) *)
  | Added                              (* before go s.handleConnection(conn) *)
  | ServeReturned (err : option error).

(** Program points of [Stop]. *)
Inductive stopPc :=
  | NotCalled
  | Called                             (* before s.cancelFunc() *)
  | Signalled                          (* before s.listener.Close() *)
  | Waiting                            (* in s.wg.Wait() *)
  | StopReturned.

(** Program points of a worker ([handleConnection]): its deferred
    [s.wg.Done()] is the last thing it does. *)
Inductive workerPc := Running | Exited.

Record state := mkState {
  cancelled : bool;          (* s.ctx is done *)
  closed : bool;             (* s.listener is closed *)
  wg : nat;                  (* the counter of s.wg *)
  serve : servePc;
  stop : stopPc;
  workers : list workerPc    (* the workers started so far, oldest first *)
}.

(** [NewFastAGIServer] followed by a call of [Serve]. *)
Definition init : state :=
  mkState false false 0 Accepting NotCalled [].

(** What [Serve] returns when [Accept] fails: it selects on
    [s.ctx.Done()]. *)
Definition acceptFailed (cancelled : bool) : option error :=
  if cancelled then None
  else Some (Errorf "failed to accept connection: %v").

(** One statement of [Serve], of [Stop] or of a worker. *)
Inductive label :=
  | AcceptOk            (* Serve: Accept returns a connection *)
  | AcceptClosed        (* Serve: Accept fails, the listener being closed *)
  | AcceptError         (* Serve: Accept fails for another reason *)
  | WgAdd               (* Serve: s.wg.Add(1) *)
  | Go                  (* Serve: go s.handleConnection(conn) *)
  | WorkerExit (i : nat) (* worker i: the deferred s.wg.Done() *)
  | StopCall            (* a caller enters Stop *)
  | StopCancel          (* Stop: s.cancelFunc() *)
  | StopClose           (* Stop: err := s.listener.Close() *)
  | StopWaitReturn.     (* Stop: s.wg.Wait() returns, and Stop with it *)

#[global] Instance label_eq_dec : EqDecision label.
Proof. solve_decision. Defined.

(** The state after statement [l], or [None] when [l] cannot run in [s]:
    [Accept] hands out connections on an open listener only, [Wait]
    returns at counter zero only, and [Done] at counter zero panics.  When
    [Accept] fails, [Serve] returns and its deferred [cancelFunc] runs. *)
Definition exec (l : label) (s : state) : option state :=
  let '(mkState c cl n sv st ws) := s in
  match l, sv, st with
  | AcceptOk, Accepting, _ =>
      if cl then None else Some (mkState c cl n Accepted st ws)
  | AcceptClosed, Accepting, _ =>
      if cl then Some (mkState true cl n (ServeReturned (acceptFailed c)) st ws)
      else None
  | AcceptError, Accepting, _ =>
      Some (mkState true cl n (ServeReturned (acceptFailed c)) st ws)
  | WgAdd, Accepted, _ => Some (mkState c cl (S n) Added st ws)
  | Go, Added, _ => Some (mkState c cl n Accepting st (ws ++ [Running]))
  | WorkerExit i, _, _ =>
      match ws !! i, n with
      | Some Running, S n' => Some (mkState c cl n' sv st (<[i := Exited]> ws))
      | _, _ => None
      end
  | StopCall, _, NotCalled => Some (mkState c cl n sv Called ws)
  | StopCancel, _, Called => Some (mkState true cl n sv Signalled ws)
  | StopClose, _, Signalled => Some (mkState c true n sv Waiting ws)
  | StopWaitReturn, _, Waiting =>
      match n with
      | 0 => Some (mkState c cl n sv StopReturned ws)
      | S _ => None
      end
  | _, _, _ => None
  end.

(** An execution: the statements [ls] run one after the other. *)
Fixpoint run (ls : list label) (s : state) : option state :=
  match ls with
  | [] => Some s
  | l :: ls' =>
      match exec l s with
      | Some s' => run ls' s'
      | None => None
      end
  end.

Definition reachable (s : state) : Prop := ∃ ls, run ls init = Some s.

(** The number of workers in flight. *)
Fixpoint running (ws : list workerPc) : nat :=
  match ws with
  | [] => 0
  | Running :: ws' => S (running ws')
  | Exited :: ws' => running ws'
  end.

Definition inFlight (s : state) : nat := running (workers s).

(** What holds in every state of every execution: the listener is closed
    by [Stop] only, after it has signalled; and the counter of the wait
    group is the number of workers in flight, plus one between [Add] and
    [go]. *)
Definition inv (s : state) : Prop :=
  (closed s = true ↔ stop s = Waiting ∨ stop s = StopReturned)
  ∧ (stop s = Signalled ∨ stop s = Waiting ∨ stop s = StopReturned →
     cancelled s = true)
  ∧ wg s = running (workers s)
           + match serve s with Added => 1 | _ => 0 end.

End server.

(** ** The wire format of the environment block

    A header line is a key, a colon, a value and a line feed; a block is a
    run of header lines and a blank line.  [blockEnv] is the mapping a block
    denotes: each line binds its trimmed key to its trimmed value, a later
    line overwriting an earlier one with the same key. *)

Module wire.

Definition headerLine (kv : gostring * gostring) : gostring :=
  fst kv ++ ":" ++ snd kv ++ nl.

Definition headerLines (kvs : list (gostring * gostring)) : gostring :=
  concat (headerLine <$> kvs).

Definition headerBlock (kvs : list (gostring * gostring)) (blank : gostring)
    : gostring :=
  headerLines kvs ++ blank ++ nl.

(** The key holds no colon (it ends at the first one), and neither part
    holds a line feed. *)
Definition wellFormed (kv : gostring * gostring) : Prop :=
  (":"%char ∉ fst kv) ∧ (LF ∉ fst kv) ∧ (LF ∉ snd kv).

Definition bind (e : gmap gostring gostring) (kv : gostring * gostring)
    : gmap gostring gostring :=
  <[strings.TrimSpace (fst kv) := strings.TrimSpace (snd kv)]> e.

Definition blockEnv (kvs : list (gostring * gostring))
    (e : gmap gostring gostring) : gmap gostring gostring :=
  foldl bind e kvs.

End wire.

(** ** Package unicode/utf8: decoding, as a [range] loop over a string does *)

Module utf8dec.

Definition RuneError : Z := 0xFFFD.

(** The value of a byte. *)
Definition code (b : ascii) : Z := Z.of_N (N_of_ascii b).

Definition between (lo hi : Z) (b : ascii) : bool :=
  ((lo <=? code b) && (code b <=? hi))%Z.

(** The table [first]: for a leading byte, the length of the sequence and
    the range accepted for its second byte. *)
Definition first (x : Z) : option (nat * Z * Z) :=
  if ((0xC2 <=? x) && (x <=? 0xDF))%Z then Some (2, 0x80%Z, 0xBF%Z)
  else if (x =? 0xE0)%Z then Some (3, 0xA0%Z, 0xBF%Z)
  else if ((0xE1 <=? x) && (x <=? 0xEC))%Z then Some (3, 0x80%Z, 0xBF%Z)
  else if (x =? 0xED)%Z then Some (3, 0x80%Z, 0x9F%Z)
  else if ((0xEE <=? x) && (x <=? 0xEF))%Z then Some (3, 0x80%Z, 0xBF%Z)
  else if (x =? 0xF0)%Z then Some (4, 0x90%Z, 0xBF%Z)
  else if ((0xF1 <=? x) && (x <=? 0xF3))%Z then Some (4, 0x80%Z, 0xBF%Z)
  else if (x =? 0xF4)%Z then Some (4, 0x80%Z, 0x8F%Z)
  else None.

(** [utf8.DecodeRuneInString]: the first rune of [s] and its width; an
    invalid or truncated sequence is U+FFFD of width 1. *)
Definition DecodeRune (s : gostring) : Z * nat :=
  match s with
  | [] => (RuneError, 0)
  | b0 :: t =>
      let x := code b0 in
      if (x <? 0x80)%Z then (x, 1)
      else
        match first x, t with
        | Some (sz, lo, hi), b1 :: t1 =>
            if length s <? sz then (RuneError, 1)
            else if negb (between lo hi b1) then (RuneError, 1)
            else if sz <=? 2 then
              (Z.lor (Z.shiftl (Z.land x 0x1F) 6) (Z.land (code b1) 0x3F), 2)
            else
              match t1 with
              | b2 :: t2 =>
                  if negb (between 0x80 0xBF b2) then (RuneError, 1)
                  else if sz <=? 3 then
                    (Z.lor (Z.shiftl (Z.land x 0x0F) 12)
                       (Z.lor (Z.shiftl (Z.land (code b1) 0x3F) 6)
                              (Z.land (code b2) 0x3F)), 3)
                  else
                    match t2 with
                    | b3 :: _ =>
                        if negb (between 0x80 0xBF b3) then (RuneError, 1)
                        else
                          (Z.lor (Z.shiftl (Z.land x 0x07) 18)
                             (Z.lor (Z.shiftl (Z.land (code b1) 0x3F) 12)
                                (Z.lor (Z.shiftl (Z.land (code b2) 0x3F) 6)
                                       (Z.land (code b3) 0x3F))), 4)
                    | [] => (RuneError, 1)
                    end
              | [] => (RuneError, 1)
              end
        | _, _ => (RuneError, 1)
        end
  end.

(** The runes a [for _, c := range s] loop visits; [skip] counts the bytes
    of the current rune that are still to be passed. *)
Fixpoint rangeFrom (skip : nat) (s : gostring) : list Z :=
  match s with
  | [] => []
  | _ :: s' =>
      match skip with
      | S k => rangeFrom k s'
      | 0 => let '(r, w) := DecodeRune s in r :: rangeFrom (w - 1) s'
      end
  end.

Definition Range (s : gostring) : list Z := rangeFrom 0 s.

End utf8dec.

(** ** Package strings: splitting, joining and searching *)

Module strings2.

(** [strings.Split] for a non-empty separator. *)
Definition Split (s sep : gostring) : list gostring := strings.SplitN s sep (-1).

Fixpoint Join (elems : list gostring) (sep : gostring) : gostring :=
  match elems with
  | [] => []
  | [x] => x
  | x :: rest => x ++ sep ++ Join rest sep
  end.

(** [strings.ContainsAny] for a set [chars] of ASCII bytes. *)
Definition ContainsAny (s chars : gostring) : bool :=
  existsb (λ c, bool_decide (c ∈ chars)) s.

End strings2.

(** ** Package agi: the rest of util.go *)

Module util.

Import agi.

(** One iteration of the loop of [ParseAGIEnv]. *)
Definition envLine (env : gmap gostring gostring) (line : gostring)
    : gmap gostring gostring :=
  let line := strings.TrimSpace line in
  if bool_decide (line = []) then env
  else if strings.HasPrefix line "agi_" then
    match strings.SplitN line ":" 2 with
    | [p0; p1] => <[strings.TrimSpace p0 := strings.TrimSpace p1]> env
    | _ => env
    end
  else env.

Definition ParseAGIEnv (input : gostring) : gmap gostring gostring :=
  foldl envLine ∅ (strings2.Split input nl).

(** The entries of the map [replacements] of [FormatDateTime]. *)
Definition replacements : list (gostring * gostring) :=
  [("YYYY" : gostring, "2006" : gostring); ("YY" : gostring, "06" : gostring);
   ("MM" : gostring, "01" : gostring); ("DD" : gostring, "02" : gostring);
   ("hh" : gostring, "15" : gostring); ("mm" : gostring, "04" : gostring);
   ("ss" : gostring, "05" : gostring)].

(** [FormatDateTime], for the order in which the [range] loop visits the
    map: Go leaves that order unspecified, any permutation of
    [replacements] can occur. *)
Definition FormatDateTimeIn (order : list (gostring * gostring))
    (format : gostring) : gostring :=
  foldl (λ result ft, strings.ReplaceAll result (fst ft) (snd ft)) format order.

(** The local variables of [SplitCommand]. *)
Record splitter := mkSplitter {
  parts : list gostring;
  current : gostring;       (* the strings.Builder *)
  inQuotes : bool;
  escaped : bool
}.

(** The body of the loop of [SplitCommand], for the rune [c]. *)
Definition splitRune (st : splitter) (c : Z) : splitter :=
  let write := mkSplitter (parts st) (current st ++ utf8.EncodeRune c)
                          (inQuotes st) (escaped st) in
  if escaped st then
    mkSplitter (parts st) (current st ++ utf8.EncodeRune c) (inQuotes st) false
  else if (c =? 92)%Z then
    mkSplitter (parts st) (current st) (inQuotes st) true
  else if (c =? 34)%Z then
    mkSplitter (parts st) (current st) (negb (inQuotes st)) (escaped st)
  else if (c =? 32)%Z then
    if inQuotes st then write
    else if 0 <? length (current st) then
      mkSplitter (parts st ++ [current st]) [] (inQuotes st) (escaped st)
    else st
  else write.

Definition SplitCommand (cmd : gostring) : list gostring :=
  let st := foldl splitRune (mkSplitter [] [] false false) (utf8dec.Range cmd) in
  if 0 <? length (current st) then parts st ++ [current st] else parts st.

(** One element of [escaped] in [JoinCommand]. *)
Definition quoteArg (part : gostring) : gostring :=
  if strings2.ContainsAny part [" "%char; DQ]
  then [DQ] ++ EscapeString part ++ [DQ]
  else part.

Definition JoinCommand (parts : list gostring) : gostring :=
  strings2.Join (quoteArg <$> parts) " ".

End util.

(** ** Package agi: more commands *)

Module commands.

Import agi.

Definition GetVariable (name : gostring) : method gostring :=
  fun s =>
    match execute ("GET VARIABLE " ++ name) s with
    | (Ok resp, s) =>
        if negb (bool_decide (Status resp = 1%Z)) then (Ok [], s)
        else (Ok (Data resp), s)
    | (Err err, s) => (Err err, s)
    | (Panic p, s) => (Panic p, s)
    end.

Definition Answer : method unit :=
  fun s =>
    match execute "ANSWER" s with
    | (Ok _, s) => (Ok (), s)
    | (Err err, s) => (Err err, s)
    | (Panic p, s) => (Panic p, s)
    end.

Definition Hangup : method unit :=
  fun s =>
    match execute "HANGUP" s with
    | (Ok _, s) => (Ok (), s)
    | (Err err, s) => (Err err, s)
    | (Panic p, s) => (Panic p, s)
    end.

Definition ChannelStatus : method Z :=
  fun s =>
    match execute "CHANNEL STATUS" s with
    | (Ok resp, s) => (Ok (Result resp), s)
    | (Err err, s) => (Err err, s)
    | (Panic p, s) => (Panic p, s)
    end.

Definition DatabaseGet (family key : gostring) : method gostring :=
  fun s =>
    match execute ("DATABASE GET " ++ family ++ " " ++ key) s with
    | (Ok resp, s) =>
        if bool_decide (Result resp = 0%Z) then (Ok [], s)
        else (Ok (Data resp), s)
    | (Err err, s) => (Err err, s)
    | (Panic p, s) => (Panic p, s)
    end.

(** The session after one command whose reply line [line] was read: the
    command and a newline written, the line and its newline consumed, and
    nothing else changed but the debug output. *)
Definition afterCommand (command line rest : gostring) (s : AgiSession)
    : AgiSession :=
  mkSession rest (mkWriter (written (writer s) ++ command ++ nl) false)
    (env s) (variables s) (debugMode s) (timeout s) (ctx s) (cancelFunc s)
    (if debugMode s
     then (stderr s ++ "AGI Command: " ++ command ++ nl)
          ++ "AGI Response: " ++ line ++ nl
     else stderr s).

(** The constants of type [AGIResultCode]. *)
Module code.

Inductive AGIResultCode := Success | Hangup | Error | Timeout.

End code.

(** [GetResultCode]: the cases of its [switch], in order. *)
Definition GetResultCode (result : Z) : code.AGIResultCode :=
  if bool_decide (result = 0%Z) then code.Success
  else if bool_decide (result = (-1)%Z) then code.Hangup
  else if bool_decide (0 < result)%Z then code.Success
  else code.Error.

End commands.

(** ** Package agi: the speech commands (mrcp.go) *)

Module mrcp.

Import agi.

(** The Go maps [Options] are given by their entries in the order in
    which the [range] loop visits them, which Go leaves unspecified; a
    nil map and an empty one are both the empty list. *)
Module MRCPRecog.

Record t := mk {
  Grammar : gostring;
  Timeout : Z;
  Options : list (gostring * gostring);
  ResultVar : gostring;
  CompletionC : gostring
}.

End MRCPRecog.

Module MRCPSynth.

Record t := mk {
  Text : gostring;
  Options : list (gostring * gostring);
  ResultVar : gostring
}.

End MRCPSynth.






End mrcp.

(** * Properties *)

Import agi.

(** ** The reply parser on concrete lines *)

Section parseResponse_examples.

(** A reply without the [result=] key is parsed. *)
Example parseResponse_bare_code :
  parseResponse ("200 1 (hello)" ++ nl)
  = Ok (mkResponse 1 1 "(hello)" "200 1 (hello)" 0 [] false).
Proof. vm_compute. reflexivity. Qed.

(** The helper of util.go accepts the documented reply format. *)
Example ParseAGIResult_hello :
  ParseAGIResult "200 result=1 (hello)" = Ok (1%Z, "hello" : gostring).
Proof. vm_compute. reflexivity. Qed.

Example ParseAGIResult_timeout :
  ParseAGIResult "200 result=-1" = Ok ((-1)%Z, [] : gostring).
Proof. vm_compute. reflexivity. Qed.

End parseResponse_examples.

(** C3: with the reply line "200 result=-1" pending, [GetOption],
    [SayNumber] and [RecordFile] return the "invalid response format"
    error of the codec (not an empty value without error), and the codec
    does not produce a reply with result -1. *)
Theorem C3_timeout_reply_is_error :
  let s := workerSession (mkConn ("200 result=-1" ++ nl)) in
  let err := Errorf "invalid response format: 200 result=-1" in
  fst (GetOption "menu" "123" 5000 s) = Err err
  ∧ fst (SayNumber 42 "#" s) = Err err
  ∧ fst (RecordFile "msg" "wav" "#" 5000 0 1 2 s) = Err err
  ∧ parseResponse ("200 result=-1" ++ nl) = Err err.
Proof. repeat split; vm_compute; reflexivity. Qed.

(** C6: on the line "200" the parser passes the prefix test and then
    slices the three-byte line at index 4, which panics; so does a command
    whose reply is that line. *)
Theorem C6_parseResponse_panics_on_bare_marker :
  parseResponse "200" = Panic (SliceBounds 4 3)
  ∧ fst (execute "ANSWER" (workerSession (mkConn ("200" ++ nl))))
    = Panic (SliceBounds 4 3).
Proof. split; vm_compute; reflexivity. Qed.

(** C7: [Close] on the session that the connection worker builds calls a
    nil [cancelFunc] and panics; a handler that closes its session takes
    the worker down with it. *)
Theorem C7_Close_panics_on_worker_session :
  (∀ conn, fst (Close (workerSession conn)) = Panic NilDeref)
  ∧ snd (handleConnection (λ _ s, Close s) Background
           (mkConn ("agi_network: yes" ++ nl ++ nl)))
    = Some NilDeref.
Proof. split; [intros conn; reflexivity | vm_compute; reflexivity]. Qed.

(** C9: [GetEnv] returns the empty string for a key that is absent from
    the environment, and the stored value for a key that is present; it
    has no error result. *)
Theorem C9_GetEnv_absent_and_present (s : AgiSession) (key : gostring) :
  (env s !! key = None → GetEnv s key = [])
  ∧ (∀ v, env s !! key = Some v → GetEnv s key = v).
Proof.
  unfold GetEnv. split.
  - intros ->. reflexivity.
  - intros v ->. reflexivity.
Qed.

Lemma C9_witness :
  GetEnv (set_env {[ ("agi_network" : gostring) := ("yes" : gostring) ]}
            (workerSession (mkConn []))) "agi_callerid" = []
  ∧ GetEnv (set_env {[ ("agi_network" : gostring) := ("yes" : gostring) ]}
              (workerSession (mkConn []))) "agi_network" = "yes".
Proof.
  split.
  - apply (proj1 (C9_GetEnv_absent_and_present _ "agi_callerid")).
    vm_compute. reflexivity.
  - apply (proj2 (C9_GetEnv_absent_and_present _ "agi_network")).
    vm_compute. reflexivity.
Defined.


(** ** Escaping and unescaping *)

Section escape.

Local Ltac dec := repeat (case_bool_decide; simplify_eq/=); try done.

Lemma ReplaceAll_cons_1 (c a : ascii) (s new : gostring) :
  strings.ReplaceAll (c :: s) [a] new
  = if bool_decide (c = a) then new ++ strings.ReplaceAll s [a] new
    else c :: strings.ReplaceAll s [a] new.
Proof. unfold strings.ReplaceAll. simpl. dec. Qed.

Lemma ReplaceAll_nil (old new : gostring) : strings.ReplaceAll [] old new = [].
Proof. reflexivity. Qed.

(** Doubling the backslashes is undone by halving them. *)
Lemma undouble_double (s : gostring) :
  strings.ReplaceAll (strings.ReplaceAll s [BS] [BS; BS]) [BS; BS] [BS] = s.
Proof.
  induction s as [|c s IH]; [reflexivity|].
  rewrite ReplaceAll_cons_1. case_bool_decide as Hc.
  - subst c. unfold strings.ReplaceAll in *. simpl. by rewrite IH.
  - unfold strings.ReplaceAll in *. simpl.
    rewrite bool_decide_eq_false_2 by done. simpl. by rewrite IH.
Qed.

(** A string whose quotes were escaped does not start with a quote. *)
Lemma quoted_no_leading_quote (t : gostring) :
  strings.HasPrefix (strings.ReplaceAll t [DQ] [BS; DQ]) [DQ] = false.
Proof.
  destruct t as [|c t]; [reflexivity|].
  rewrite ReplaceAll_cons_1. case_bool_decide as Hc; simpl.
  - reflexivity.
  - by rewrite bool_decide_eq_false_2.
Qed.

(** Escaping the quotes is undone by unescaping them, whatever else the
    string holds. *)
Lemma unquote_quote (t : gostring) :
  strings.ReplaceAll (strings.ReplaceAll t [DQ] [BS; DQ]) [BS; DQ] [DQ] = t.
Proof.
  induction t as [|c t IH]; [reflexivity|].
  rewrite ReplaceAll_cons_1. case_bool_decide as Hc.
  - subst c. unfold strings.ReplaceAll in *. simpl. by rewrite IH.
  - pose proof (quoted_no_leading_quote t) as Hq.
    unfold strings.ReplaceAll in *. simpl.
    destruct (bool_decide (c = BS)) eqn:Hb; simpl.
    + simpl in Hq. rewrite Hq. by rewrite IH.
    + by rewrite IH.
Qed.

End escape.

(** C10: unescaping an escaped string gives the string back, for every
    string. *)
Theorem C10_Unescape_Escape (s : gostring) :
  UnescapeString (EscapeString s) = s.
Proof.
  unfold UnescapeString, EscapeString.
  rewrite unquote_quote. apply undouble_double.
Qed.


(** ** Prefixes and cutting *)

Section cut.

Implicit Types s p r t : gostring.

Lemma HasPrefix_spec s p : strings.HasPrefix s p = true ↔ p `prefix_of` s.
Proof.
  revert s. induction p as [|a p IH]; intros s; simpl.
  - split; [intros _; apply prefix_nil | done].
  - destruct s as [|c s].
    + split; [done | intros H; by apply prefix_nil_not in H].
    + rewrite andb_true_iff, bool_decide_eq_true, IH. split.
      * intros [-> H]. by apply prefix_cons.
      * intros H. split; [symmetry; by eapply prefix_cons_inv_1
                         | by eapply prefix_cons_inv_2].
Qed.

Lemma HasPrefix_app p t : strings.HasPrefix (p ++ t) p = true.
Proof. apply HasPrefix_spec. by apply prefix_app_r. Qed.

Lemma CutPrefix_Some s p r : strings.CutPrefix s p = Some r ↔ s = p ++ r.
Proof.
  revert s. induction p as [|a p IH]; intros s; simpl.
  - split; congruence.
  - destruct s as [|c s]; [split; discriminate|].
    case_bool_decide as Hc.
    + subst c. rewrite IH. split; [by intros -> | by intros [= ->]].
    + split; [discriminate | by intros [= -> _]].
Qed.

Lemma CutPrefix_None s p : strings.CutPrefix s p = None ↔ ¬ p `prefix_of` s.
Proof.
  split.
  - intros Hn [r Hr]. apply CutPrefix_Some in Hr. congruence.
  - intros Hn. destruct (strings.CutPrefix s p) as [r|] eqn:E; [|done].
    apply CutPrefix_Some in E. destruct Hn. by exists r.
Qed.

Lemma cutAny_Some ps s r :
  strings.cutAny ps s = Some r → ∃ p, p ∈ ps ∧ s = p ++ r.
Proof.
  induction ps as [|q ps IH]; simpl; [done|].
  destruct (strings.CutPrefix s q) as [r'|] eqn:E.
  - intros [= ->]. apply CutPrefix_Some in E. exists q. split; [left | done].
  - intros H. destruct (IH H) as (p & Hp & ->). exists p. split; [by right | done].
Qed.

Lemma cutAny_None ps s :
  strings.cutAny ps s = None ↔ ∀ p, p ∈ ps → ¬ p `prefix_of` s.
Proof.
  induction ps as [|q ps IH]; simpl.
  - split; [intros _ p Hp; by apply elem_of_nil in Hp | done].
  - destruct (strings.CutPrefix s q) as [r'|] eqn:E.
    + split; [done|]. intros H. apply CutPrefix_Some in E.
      destruct (H q); [left | by exists r'].
    + rewrite IH. apply CutPrefix_None in E. split.
      * intros H p [->|Hp]%elem_of_cons; auto.
      * intros H p Hp. apply H. by right.
Qed.

(** A prefix of [k ++ t] lies within [k] or reaches into [t]. *)
Lemma prefix_app_cases q k t :
  q `prefix_of` k ++ t →
  q `prefix_of` k ∨ ∃ z, z ≠ [] ∧ q = k ++ z ∧ z `prefix_of` t.
Proof.
  revert q. induction k as [|c k IH]; intros q Hq; simpl in *.
  - destruct q as [|a q]; [left; apply prefix_nil|].
    right. exists (a :: q). done.
  - destruct q as [|a q]; [left; apply prefix_nil|].
    pose proof (prefix_cons_inv_1 _ _ _ _ Hq) as ->.
    apply prefix_cons_inv_2 in Hq.
    destruct (IH _ Hq) as [H|(z & Hz & -> & Hzt)].
    + left. by apply prefix_cons.
    + right. by exists z.
Qed.

End cut.

(** ** Trimming by a table of patterns *)

Section trim.

Variable ps : list gostring.
Hypothesis ps_nonempty : ∀ p, p ∈ ps → p ≠ [].
Hypothesis ps_prefix_free :
  ∀ p q, p ∈ ps → q ∈ ps → p `prefix_of` q → p = q.

Implicit Types s p r t k : gostring.

Lemma cutAny_length s r : strings.cutAny ps s = Some r → length r < length s.
Proof.
  intros (p & Hp & ->)%cutAny_Some. apply ps_nonempty in Hp.
  rewrite length_app. destruct p; [done | simpl; lia].
Qed.

(** The first pattern that matches is the only one that does. *)
Lemma cutAny_app p r : p ∈ ps → strings.cutAny ps (p ++ r) = Some r.
Proof.
  intros Hp. destruct (strings.cutAny ps (p ++ r)) as [r'|] eqn:E.
  - apply cutAny_Some in E as (q & Hq & E).
    assert (p = q) as ->; [|by apply app_inv_head in E; subst].
    destruct (prefix_weak_total p q (p ++ r)) as [H|H].
    + by apply prefix_app_r.
    + rewrite E. by apply prefix_app_r.
    + by apply ps_prefix_free.
    + symmetry. by apply ps_prefix_free.
  - rewrite cutAny_None in E. destruct (E p Hp). by apply prefix_app_r.
Qed.

Lemma cutAny_app_r s r t :
  strings.cutAny ps s = Some r → strings.cutAny ps (s ++ t) = Some (r ++ t).
Proof.
  intros (p & Hp & ->)%cutAny_Some. rewrite <-(assoc_L (++)).
  by apply cutAny_app.
Qed.

(** More fuel than bytes changes nothing. *)
Lemma trimN_fuel n s :
  length s ≤ n → strings.trimN ps n s = strings.trimN ps (length s) s.
Proof.
  revert s. induction n as [n IH] using lt_wf_ind. intros s Hn.
  destruct n as [|n]; [destruct s; [done | simpl in Hn; lia]|].
  destruct s as [|c s'].
  - simpl. destruct (strings.cutAny ps []) as [r|] eqn:E; [|done].
    apply cutAny_length in E. simpl in E. lia.
  - change (length (c :: s')) with (S (length s')) in *.
    cbn [strings.trimN].
    destruct (strings.cutAny ps (c :: s')) as [r|] eqn:E; [|done].
    apply cutAny_length in E. simpl in E.
    rewrite (IH n), (IH (length s')); [done|lia..].
Qed.

Lemma trim_stop s :
  strings.cutAny ps s = None → strings.trimN ps (length s) s = s.
Proof. intros E. destruct s; simpl; [done|]. simpl in E. by rewrite E. Qed.

Lemma trim_cut s r :
  strings.cutAny ps s = Some r →
  strings.trimN ps (length s) s = strings.trimN ps (length r) r.
Proof.
  intros E. pose proof (cutAny_length _ _ E) as Hl.
  destruct s as [|c s']; simpl in Hl; [lia|].
  simpl strings.trimN. rewrite E. apply trimN_fuel. lia.
Qed.

(** Induction along the patterns that trimming removes. *)
Lemma trim_ind (P : gostring → Prop) :
  (∀ s, strings.cutAny ps s = None → P s) →
  (∀ s r, strings.cutAny ps s = Some r → P r → P s) →
  ∀ s, P s.
Proof.
  intros Hstop Hcut s.
  assert (∀ n s, length s = n → P s) as H; [|by eapply H].
  clear s. intros m. induction m as [m IHm] using lt_wf_ind. intros s <-.
  destruct (strings.cutAny ps s) as [r|] eqn:E; [|by apply Hstop].
  eapply Hcut; [done|]. eapply IHm; [|done]. by apply cutAny_length.
Qed.

Lemma trim_no_pattern s :
  strings.cutAny ps (strings.trimN ps (length s) s) = None.
Proof.
  induction s as [s E|s r E IH] using trim_ind.
  - by rewrite trim_stop.
  - by rewrite (trim_cut _ _ E).
Qed.

Lemma trim_idemp s :
  let t := strings.trimN ps (length s) s in
  strings.trimN ps (length t) t = t.
Proof. simpl. apply trim_stop, trim_no_pattern. Qed.

Lemma trim_suffix s : strings.trimN ps (length s) s `suffix_of` s.
Proof.
  induction s as [s E|s r E IH] using trim_ind.
  - by rewrite trim_stop.
  - rewrite (trim_cut _ _ E). apply cutAny_Some in E as (p & _ & ->).
    by apply suffix_app_r.
Qed.

(** A byte that occurs in no pattern stops the trimming. *)
Lemma trim_barrier (c : ascii) k t :
  (∀ p, p ∈ ps → c ∉ p) →
  strings.trimN ps (length (k ++ c :: t)) (k ++ c :: t)
  = strings.trimN ps (length k) k ++ c :: t.
Proof.
  intros Hc. induction k as [k E|k r E IH] using trim_ind.
  - rewrite (trim_stop k E). apply trim_stop. apply cutAny_None.
    intros q Hq Hpre. rewrite cutAny_None in E.
    destruct (prefix_app_cases _ _ _ Hpre) as [H|(z & Hz & -> & Hzt)].
    + by eapply E.
    + destruct z as [|a z]; [done|].
      pose proof (prefix_cons_inv_1 _ _ _ _ Hzt) as ->.
      apply (Hc _ Hq). set_solver.
  - rewrite (trim_cut _ _ E), <-IH. apply trim_cut. by apply cutAny_app_r.
Qed.

End trim.


(** ** The white space table *)

Section white_space.

Local Abbreviation L := strings.spaceRunes.
Local Abbreviation R := (reverse <$> strings.spaceRunes).

Local Ltac by_table :=
  rewrite <-?Forall_forall; apply (bool_decide_unpack _); vm_compute; exact I.

Lemma L_nonempty : ∀ p, p ∈ L → p ≠ [].
Proof. by_table. Qed.

Lemma R_nonempty : ∀ p, p ∈ R → p ≠ [].
Proof. by_table. Qed.

Lemma L_prefix_free_table :
  Forall (λ p, Forall (λ q, p `prefix_of` q → p = q) L) L.
Proof. by_table. Qed.

Lemma R_prefix_free_table :
  Forall (λ p, Forall (λ q, p `prefix_of` q → p = q) R) R.
Proof. by_table. Qed.

Lemma L_prefix_free p q : p ∈ L → q ∈ L → p `prefix_of` q → p = q.
Proof.
  intros Hp Hq. pose proof L_prefix_free_table as H.
  rewrite Forall_forall in H. specialize (H p Hp).
  rewrite Forall_forall in H. by apply H.
Qed.

Lemma R_prefix_free p q : p ∈ R → q ∈ R → p `prefix_of` q → p = q.
Proof.
  intros Hp Hq. pose proof R_prefix_free_table as H.
  rewrite Forall_forall in H. specialize (H p Hp).
  rewrite Forall_forall in H. by apply H.
Qed.

(** No encoding contains a colon. *)
Lemma L_no_colon : ∀ p, p ∈ L → ":"%char ∉ p.
Proof. by_table. Qed.

Lemma R_no_colon : ∀ p, p ∈ R → ":"%char ∉ p.
Proof. by_table. Qed.

(** No proper tail of a reversed encoding starts the reverse of an
    encoding: an encoding that ends a string does not straddle the end of
    an encoding before it. *)
Lemma no_straddle_table :
  Forall (λ q, Forall (λ p, Forall (λ i, ¬ drop i q `prefix_of` reverse p)
                              (seq 1 (length q - 1))) L) R.
Proof. by_table. Qed.

Lemma no_straddle q p r z :
  q ∈ R → p ∈ L → r ≠ [] → z ≠ [] → q = r ++ z → ¬ z `prefix_of` reverse p.
Proof.
  intros Hq Hp Hr Hz ->. pose proof no_straddle_table as H.
  rewrite Forall_forall in H. specialize (H _ Hq).
  rewrite Forall_forall in H. specialize (H _ Hp).
  rewrite Forall_forall in H. specialize (H (length r)).
  rewrite drop_app_length in H. apply H.
  apply elem_of_seq. rewrite length_app.
  destruct r; [done|]. destruct z; [done|]. simpl. lia.
Qed.

Lemma reverse_in_R p : p ∈ L → reverse p ∈ R.
Proof. intros Hp. apply list_elem_of_fmap. by exists p. Qed.

Implicit Types s p r t k : gostring.

(** *** Trimming on the left *)

Lemma TrimLeftSpace_stop s :
  strings.cutAny L s = None → strings.TrimLeftSpace s = s.
Proof. apply trim_stop. Qed.

Lemma TrimLeftSpace_cut s r :
  strings.cutAny L s = Some r →
  strings.TrimLeftSpace s = strings.TrimLeftSpace r.
Proof. apply trim_cut, L_nonempty. Qed.

Lemma TrimLeftSpace_app p s :
  p ∈ L → strings.TrimLeftSpace (p ++ s) = strings.TrimLeftSpace s.
Proof.
  intros Hp. apply TrimLeftSpace_cut.
  by apply (cutAny_app L L_prefix_free).
Qed.

Lemma TrimLeftSpace_idemp s :
  strings.TrimLeftSpace (strings.TrimLeftSpace s) = strings.TrimLeftSpace s.
Proof. apply (trim_idemp L L_nonempty). Qed.

Lemma TrimLeftSpace_suffix s : strings.TrimLeftSpace s `suffix_of` s.
Proof. apply (trim_suffix L L_nonempty). Qed.

Lemma TrimLeftSpace_colon k t :
  strings.TrimLeftSpace (k ++ ":"%char :: t)
  = strings.TrimLeftSpace k ++ ":"%char :: t.
Proof.
  apply (trim_barrier L L_nonempty L_prefix_free). apply L_no_colon.
Qed.

(** *** Trimming on the right *)

Lemma TrimRightSpace_eq s :
  strings.TrimRightSpace s
  = reverse (strings.trimN R (length (reverse s)) (reverse s)).
Proof. unfold strings.TrimRightSpace. by rewrite length_reverse. Qed.

Lemma TrimRightSpace_prefix s : strings.TrimRightSpace s `prefix_of` s.
Proof.
  rewrite TrimRightSpace_eq.
  pose proof (trim_suffix R R_nonempty (reverse s)) as H.
  apply suffix_prefix_reverse in H. by rewrite reverse_involutive in H.
Qed.

Lemma TrimRightSpace_idemp s :
  strings.TrimRightSpace (strings.TrimRightSpace s) = strings.TrimRightSpace s.
Proof.
  rewrite !TrimRightSpace_eq, reverse_involutive.
  f_equal. apply (trim_idemp R R_nonempty).
Qed.

Lemma TrimRightSpace_colon k t :
  strings.TrimRightSpace (k ++ ":"%char :: t)
  = k ++ ":"%char :: strings.TrimRightSpace t.
Proof.
  rewrite !TrimRightSpace_eq, reverse_app, reverse_cons, <-(assoc_L (++)).
  simpl. rewrite (trim_barrier R R_nonempty R_prefix_free) by apply R_no_colon.
  by rewrite reverse_app, reverse_cons, reverse_involutive, <-(assoc_L (++)).
Qed.

Lemma TrimRightSpace_snoc s p :
  p ∈ L → strings.TrimRightSpace (s ++ p) = strings.TrimRightSpace s.
Proof.
  intros Hp. rewrite !TrimRightSpace_eq, reverse_app. f_equal.
  apply (trim_cut R R_nonempty).
  apply (cutAny_app R R_prefix_free), reverse_in_R, Hp.
Qed.

Lemma nl_in_L : nl ∈ L.
Proof. apply (bool_decide_unpack _). vm_compute. exact I. Qed.

Lemma TrimRightSpace_nl s :
  strings.TrimRightSpace (s ++ nl) = strings.TrimRightSpace s.
Proof. apply TrimRightSpace_snoc, nl_in_L. Qed.

(** *** The two trims commute *)

Lemma trimR_after_pattern r p :
  p ∈ L →
  let T x := strings.trimN R (length x) x in
  T (r ++ reverse p) = T r ++ reverse p ∨ (T (r ++ reverse p) = [] ∧ T r = []).
Proof.
  intros Hp T. unfold T.
  induction r as [r E|r r1 E IH] using (trim_ind R R_nonempty).
  - rewrite (trim_stop R r E). destruct r as [|c r].
    + right. split; [|done]. simpl app.
      rewrite (trim_cut R R_nonempty (reverse p) []); [done|].
      rewrite <-(app_nil_r (reverse p)) at 1.
      apply (cutAny_app R R_prefix_free), reverse_in_R, Hp.
    + left. apply trim_stop, cutAny_None. intros q Hq Hpre.
      rewrite cutAny_None in E.
      destruct (prefix_app_cases _ _ _ Hpre) as [H|(z & Hz & Hqz & Hzt)].
      * by eapply E.
      * by eapply (no_straddle q p (c :: r) z).
  - rewrite (trim_cut R R_nonempty r r1 E).
    rewrite (trim_cut R R_nonempty (r ++ reverse p) (r1 ++ reverse p)); [done|].
    by apply (cutAny_app_r R R_prefix_free).
Qed.

Lemma TrimRightSpace_after_pattern p s :
  p ∈ L →
  strings.TrimRightSpace (p ++ s) = p ++ strings.TrimRightSpace s
  ∨ (strings.TrimRightSpace (p ++ s) = [] ∧ strings.TrimRightSpace s = []).
Proof.
  intros Hp. rewrite !TrimRightSpace_eq, reverse_app.
  destruct (trimR_after_pattern (reverse s) p Hp) as [->|[-> ->]].
  - left. by rewrite reverse_app, reverse_involutive.
  - right. done.
Qed.

Lemma TrimSpace_comm s :
  strings.TrimLeftSpace (strings.TrimRightSpace s)
  = strings.TrimRightSpace (strings.TrimLeftSpace s).
Proof.
  induction s as [s E|s r E IH] using (trim_ind L L_nonempty).
  - rewrite (TrimLeftSpace_stop s E). apply TrimLeftSpace_stop, cutAny_None.
    intros p Hp Hpre. rewrite cutAny_None in E. apply (E p Hp).
    etrans; [done | apply TrimRightSpace_prefix].
  - rewrite (TrimLeftSpace_cut s r E), <-IH.
    apply cutAny_Some in E as (p & Hp & ->).
    destruct (TrimRightSpace_after_pattern p r Hp) as [->|[-> ->]].
    + by apply TrimLeftSpace_app.
    + done.
Qed.

(** *** [TrimSpace] *)

Lemma TrimSpace_nl s : strings.TrimSpace (s ++ nl) = strings.TrimSpace s.
Proof.
  unfold strings.TrimSpace.
  by rewrite <-!TrimSpace_comm, TrimRightSpace_nl.
Qed.

Lemma TrimSpace_colon k t :
  strings.TrimSpace (k ++ ":"%char :: t)
  = strings.TrimLeftSpace k ++ ":"%char :: strings.TrimRightSpace t.
Proof.
  unfold strings.TrimSpace. by rewrite TrimLeftSpace_colon, TrimRightSpace_colon.
Qed.

Lemma TrimSpace_TrimLeftSpace s :
  strings.TrimSpace (strings.TrimLeftSpace s) = strings.TrimSpace s.
Proof. unfold strings.TrimSpace. by rewrite TrimLeftSpace_idemp. Qed.

Lemma TrimSpace_TrimRightSpace s :
  strings.TrimSpace (strings.TrimRightSpace s) = strings.TrimSpace s.
Proof.
  unfold strings.TrimSpace.
  by rewrite TrimSpace_comm, TrimRightSpace_idemp.
Qed.

Lemma TrimSpace_idemp s :
  strings.TrimSpace (strings.TrimSpace s) = strings.TrimSpace s.
Proof.
  unfold strings.TrimSpace at 2.
  by rewrite TrimSpace_TrimRightSpace, TrimSpace_TrimLeftSpace.
Qed.

(** Trimming removes bytes at the two ends only. *)
Lemma TrimSpace_elem (c : ascii) s : c ∈ strings.TrimSpace s → c ∈ s.
Proof.
  unfold strings.TrimSpace. intros Hc.
  destruct (TrimRightSpace_prefix (strings.TrimLeftSpace s)) as [t Ht].
  destruct (TrimLeftSpace_suffix s) as [k Hk].
  rewrite Hk, Ht. set_solver.
Qed.

Lemma TrimLeftSpace_elem (c : ascii) s : c ∈ strings.TrimLeftSpace s → c ∈ s.
Proof.
  intros Hc. destruct (TrimLeftSpace_suffix s) as [k Hk].
  rewrite Hk. set_solver.
Qed.

(** Parentheses are not white space. *)
Lemma L_no_paren : ∀ p, p ∈ L → head p ≠ Some "("%char.
Proof. by_table. Qed.

Lemma R_no_paren : ∀ p, p ∈ R → head p ≠ Some ")"%char.
Proof. by_table. Qed.

Lemma cutAny_head_None ps (c : ascii) s :
  (∀ p, p ∈ ps → p ≠ []) → (∀ p, p ∈ ps → head p ≠ Some c) →
  strings.cutAny ps (c :: s) = None.
Proof.
  intros Hne Hh. apply cutAny_None. intros p Hp Hpre.
  destruct p as [|a p]; [by apply (Hne [])|].
  apply prefix_cons_inv_1 in Hpre as ->. by apply (Hh _ Hp).
Qed.

Lemma TrimSpace_parenthesized s :
  strings.TrimSpace ("("%char :: s ++ [")"%char]) = "("%char :: s ++ [")"%char].
Proof.
  unfold strings.TrimSpace. rewrite TrimLeftSpace_stop
    by (apply cutAny_head_None; [apply L_nonempty | apply L_no_paren]).
  rewrite TrimRightSpace_eq.
  change ("("%char :: s ++ [")"%char]) with (("("%char :: s) ++ [")"%char]).
  rewrite reverse_snoc, trim_stop
    by (apply cutAny_head_None; [apply R_nonempty | apply R_no_paren]).
  by rewrite <-reverse_snoc, reverse_involutive.
Qed.

End white_space.


(** ** Reading and splitting lines *)

Section lines.

Implicit Types s l k v r rest : gostring.

Lemma ReadString_line (d : ascii) l rest :
  d ∉ l → bufio.ReadString d (l ++ d :: rest) = (l ++ [d], rest, None).
Proof.
  induction l as [|c l IH]; intros Hd; simpl.
  - by rewrite bool_decide_eq_true_2.
  - rewrite bool_decide_eq_false_2 by set_solver.
    rewrite IH by set_solver. done.
Qed.

Lemma ReadString_length (d : ascii) r line rest :
  bufio.ReadString d r = (line, rest, None) → length rest < length r.
Proof.
  revert line. induction r as [|c r IH]; intros line; simpl; [done|].
  case_bool_decide.
  - intros [= _ <-]. lia.
  - destruct (bufio.ReadString d r) as [[line' rest'] err'] eqn:E.
    intros [= _ <- ->]. specialize (IH _ eq_refl). lia.
Qed.

Lemma Index_byte (c : ascii) k t :
  c ∉ k → strings.Index (k ++ c :: t) [c] = Some (length k).
Proof.
  induction k as [|a k IH]; intros Hc; simpl.
  - by rewrite bool_decide_eq_true_2.
  - rewrite bool_decide_eq_false_2 by set_solver. simpl.
    rewrite IH by set_solver. done.
Qed.

Lemma Index_absent (c : ascii) s : c ∉ s → strings.Index s [c] = None.
Proof.
  induction s as [|a s IH]; intros Hc; simpl; [done|].
  rewrite bool_decide_eq_false_2 by set_solver. simpl.
  rewrite IH by set_solver. done.
Qed.

Lemma SplitN_2_byte (c : ascii) k t :
  c ∉ k → strings.SplitN (k ++ c :: t) [c] 2 = [k; t].
Proof.
  intros Hc. unfold strings.SplitN. simpl.
  rewrite (Index_byte c k t Hc). rewrite take_app_length.
  replace (length k + 1) with (length (k ++ [c])) by (rewrite length_app; simpl; lia).
  by rewrite (cons_middle c k t), (assoc_L (++)), drop_app_length.
Qed.

Lemma SplitN_2_absent (c : ascii) s : c ∉ s → strings.SplitN s [c] 2 = [s].
Proof.
  intros Hc. unfold strings.SplitN. simpl. by rewrite (Index_absent c s Hc).
Qed.

End lines.


(** ** The environment parser *)

Section readEnvironment.

Import wire.

Implicit Types (s : AgiSession) (l k v rest : gostring).

(** Enough fuel: the result does not depend on it. *)
Lemma readEnvLoop_fuel n m s :
  length (reader s) < n → length (reader s) < m →
  readEnvLoop n s = readEnvLoop m s.
Proof.
  revert m s. induction n as [|n IH]; intros m s Hn Hm; [lia|].
  destruct m as [|m]; [lia|]. simpl.
  destruct (bufio.ReadString LF (reader s)) as [[line rest] err] eqn:E.
  destruct err as [e|]; [done|].
  apply ReadString_length in E.
  case_bool_decide; [done|].
  destruct (strings.SplitN _ _ _) as [|p0 [|p1 [|p2 ps]]]; try done.
  apply IH; simpl; lia.
Qed.

(** One iteration on a header line. *)
Lemma readEnvLoop_headerLine fuel s kv rest :
  wellFormed kv →
  reader s = headerLine kv ++ rest →
  readEnvLoop (S fuel) s
  = readEnvLoop fuel (set_env (bind (env s) kv) (set_reader rest s)).
Proof.
  destruct kv as [k v]. intros (Hc & Hk & Hv) Hr.
  unfold headerLine, bind in *. cbn [fst snd] in *.
  change (String.list_ascii_of_string ":") with [":"%char] in *.
  assert (reader s = (k ++ ":"%char :: v) ++ LF :: rest) as Hr'.
  { rewrite Hr. unfold nl. by rewrite <-!(assoc_L (++)). }
  cbn [readEnvLoop]. rewrite Hr'.
  rewrite ReadString_line
    by (rewrite not_elem_of_app, not_elem_of_cons; by repeat split).
  change ((k ++ ":"%char :: v) ++ [LF]) with ((k ++ ":"%char :: v) ++ nl).
  rewrite TrimSpace_nl, TrimSpace_colon.
  rewrite bool_decide_eq_false_2 by (by destruct (strings.TrimLeftSpace k)).
  rewrite (SplitN_2_byte ":"%char)
    by (intros H; by apply TrimLeftSpace_elem in H).
  by rewrite TrimSpace_TrimLeftSpace, TrimSpace_TrimRightSpace.
Qed.

(** The iteration on the blank line ends the loop. *)
Lemma readEnvLoop_blank fuel s blank rest :
  LF ∉ blank → strings.TrimSpace blank = [] →
  reader s = blank ++ nl ++ rest →
  readEnvLoop (S fuel) s = (Ok (), set_reader rest s).
Proof.
  intros Hb Ht Hr. cbn [readEnvLoop]. rewrite Hr. unfold nl at 1. simpl app.
  rewrite ReadString_line by done.
  change (blank ++ [LF]) with (blank ++ nl). rewrite TrimSpace_nl, Ht.
  by rewrite bool_decide_eq_true_2.
Qed.

(** The iteration on a line without a colon ends the loop with an error. *)
Lemma readEnvLoop_no_colon fuel s bad rest :
  LF ∉ bad → ":"%char ∉ bad → strings.TrimSpace bad ≠ [] →
  reader s = bad ++ nl ++ rest →
  readEnvLoop (S fuel) s
  = (Err (Errorf ("invalid environment line: " ++ strings.TrimSpace bad)),
     set_reader rest s).
Proof.
  intros Hb Hc Ht Hr. cbn [readEnvLoop]. rewrite Hr. unfold nl at 1. simpl app.
  rewrite ReadString_line by done.
  change (bad ++ [LF]) with (bad ++ nl). rewrite TrimSpace_nl.
  rewrite bool_decide_eq_false_2 by done.
  rewrite (SplitN_2_absent ":"%char)
    by (intros H; by apply TrimSpace_elem in H).
  done.
Qed.

(** The iterations on a run of header lines. *)
Lemma readEnvLoop_headerLines kvs fuel s rest :
  Forall wellFormed kvs →
  reader s = headerLines kvs ++ rest →
  readEnvLoop (length kvs + fuel) s
  = readEnvLoop fuel (set_env (blockEnv kvs (env s)) (set_reader rest s)).
Proof.
  revert s. induction kvs as [|kv kvs IH]; intros s Hwf Hr.
  - simpl in *. destruct s. simpl in *. by subst.
  - apply Forall_cons in Hwf as [Hkv Hwf].
    unfold headerLines in Hr. simpl in Hr. rewrite <-(assoc_L (++)) in Hr.
    simpl plus. rewrite (readEnvLoop_headerLine _ _ _ _ Hkv Hr).
    rewrite (IH _ Hwf); [|done]. done.
Qed.

Lemma headerLines_length kvs : length kvs ≤ length (headerLines kvs).
Proof.
  induction kvs as [|kv kvs IH]; [done|].
  unfold headerLines in *. rewrite fmap_cons. cbn [concat length].
  rewrite length_app.
  assert (1 ≤ length (headerLine kv)).
  { unfold headerLine, nl. rewrite !length_app. simpl. lia. }
  lia.
Qed.

(** Parsing a well-formed block. *)
Lemma readEnvironment_block kvs blank rest s :
  Forall wellFormed kvs →
  LF ∉ blank → strings.TrimSpace blank = [] →
  reader s = headerBlock kvs blank ++ rest →
  readEnvironment s
  = (Ok (), set_env (blockEnv kvs (env s)) (set_reader rest s)).
Proof.
  intros Hwf Hb Ht Hr. unfold readEnvironment, headerBlock in *.
  rewrite <-!(assoc_L (++)) in Hr.
  replace (S (length (reader s)))
    with (length kvs + S (length (reader s) - length kvs)).
  - rewrite (readEnvLoop_headerLines _ _ _ _ Hwf Hr).
    by rewrite (readEnvLoop_blank _ _ blank rest).
  - rewrite Hr, !length_app. pose proof (headerLines_length kvs). lia.
Qed.

(** Parsing a block with a line that has no colon. *)
Lemma readEnvironment_no_colon kvs bad rest s :
  Forall wellFormed kvs →
  LF ∉ bad → ":"%char ∉ bad → strings.TrimSpace bad ≠ [] →
  reader s = headerLines kvs ++ bad ++ nl ++ rest →
  readEnvironment s
  = (Err (Errorf ("invalid environment line: " ++ strings.TrimSpace bad)),
     set_env (blockEnv kvs (env s)) (set_reader rest s)).
Proof.
  intros Hwf Hb Hc Ht Hr. unfold readEnvironment.
  replace (S (length (reader s)))
    with (length kvs + S (length (reader s) - length kvs)).
  - rewrite (readEnvLoop_headerLines _ _ _ _ Hwf Hr).
    by rewrite (readEnvLoop_no_colon _ _ bad rest).
  - rewrite Hr, !length_app. pose proof (headerLines_length kvs). lia.
Qed.

End readEnvironment.


(** ** The mapping of a block *)

Section blockEnv.

Import wire.

Implicit Types (e : gmap gostring gostring) (kv : gostring * gostring).

Lemma blockEnv_cons kv kvs e : blockEnv (kv :: kvs) e = blockEnv kvs (bind e kv).
Proof. reflexivity. Qed.

(** A key that no line binds keeps what it had. *)
Lemma blockEnv_lookup_other kvs e (key : gostring) :
  (∀ kv, kv ∈ kvs → strings.TrimSpace (fst kv) ≠ key) →
  blockEnv kvs e !! key = e !! key.
Proof.
  revert e. induction kvs as [|kv kvs IH]; intros e Hk; [done|].
  rewrite blockEnv_cons, IH.
  - unfold bind. apply lookup_insert_ne, Hk. by left.
  - intros kv' Hkv'. apply Hk. by right.
Qed.

(** The last line with a key gives the key its value. *)
Lemma blockEnv_lookup_last kvs e i kv :
  kvs !! i = Some kv →
  (∀ j kv', i < j → kvs !! j = Some kv' →
            strings.TrimSpace (fst kv') ≠ strings.TrimSpace (fst kv)) →
  blockEnv kvs e !! strings.TrimSpace (fst kv)
  = Some (strings.TrimSpace (snd kv)).
Proof.
  revert e i. induction kvs as [|kv0 kvs IH]; intros e i Hi Hlast; [done|].
  rewrite blockEnv_cons. destruct i as [|i]; simpl in Hi.
  - injection Hi as ->. rewrite blockEnv_lookup_other.
    + unfold bind. apply lookup_insert_eq.
    + intros kv' [j Hj]%list_elem_of_lookup. apply (Hlast (S j)); [lia | done].
  - apply (IH _ i); [done|]. intros j kv' Hij Hj.
    apply (Hlast (S j)); [lia | done].
Qed.

(** The keys of the mapping are the keys of the lines. *)
Lemma blockEnv_dom kvs e :
  dom (blockEnv kvs e)
  = dom e ∪ list_to_set ((λ kv, strings.TrimSpace (fst kv)) <$> kvs).
Proof.
  revert e. induction kvs as [|kv kvs IH]; intros e.
  - simpl. set_solver.
  - rewrite blockEnv_cons, IH. unfold bind. rewrite dom_insert_L.
    rewrite fmap_cons, list_to_set_cons. set_solver.
Qed.

End blockEnv.

(** C4: on a block of well-formed header lines closed by a blank line,
    [readEnvironment] succeeds; the environment is the one the block
    denotes, its keys are the trimmed keys of the lines (and what the
    mapping held before), each key is bound to the trimmed value of the
    last line that has it; and the reader is left with exactly the bytes
    that follow the blank line. *)
Theorem C4_readEnvironment_valid_block
    (kvs : list (gostring * gostring)) (blank rest : gostring)
    (s : AgiSession) :
  Forall wire.wellFormed kvs →
  LF ∉ blank → strings.TrimSpace blank = [] →
  reader s = wire.headerBlock kvs blank ++ rest →
  ∃ s', readEnvironment s = (Ok (), s')
    ∧ reader s' = rest
    ∧ env s' = wire.blockEnv kvs (env s)
    ∧ dom (env s')
      = dom (env s)
        ∪ list_to_set ((λ kv, strings.TrimSpace (fst kv)) <$> kvs)
    ∧ ∀ i kv, kvs !! i = Some kv →
        (∀ j kv', i < j → kvs !! j = Some kv' →
           strings.TrimSpace (fst kv') ≠ strings.TrimSpace (fst kv)) →
        env s' !! strings.TrimSpace (fst kv)
        = Some (strings.TrimSpace (snd kv)).
Proof.
  intros Hwf Hb Ht Hr. eexists. split.
  { by apply (readEnvironment_block kvs blank rest s). }
  simpl. repeat split.
  - apply blockEnv_dom.
  - intros i kv. apply blockEnv_lookup_last.
Qed.

Lemma C4_witness :
  ∃ s',
    readEnvironment
      (workerSession
         (mkConn ("agi_network: yes" ++ nl ++ "agi_network_script: demo.agi"
                  ++ nl ++ nl ++ "200 result=0" ++ nl)))
    = (Ok (), s')
    ∧ reader s' = "200 result=0" ++ nl
    ∧ env s' !! ("agi_network" : gostring) = Some ("yes" : gostring)
    ∧ env s' !! ("agi_network_script" : gostring)
      = Some ("demo.agi" : gostring).
Proof.
  assert (Forall wire.wellFormed
            [("agi_network" : gostring, " yes" : gostring);
             ("agi_network_script" : gostring, " demo.agi" : gostring)])
    as Hwf.
  { repeat first [apply Forall_nil | apply Forall_cons; split | split];
      apply (bool_decide_unpack _); vm_compute; exact I. }
  assert (LF ∉ ([] : gostring)) as Hblank.
  { apply (bool_decide_unpack _); vm_compute; exact I. }
  destruct (C4_readEnvironment_valid_block _ [] ("200 result=0" ++ nl)
              (workerSession
                 (mkConn ("agi_network: yes" ++ nl
                          ++ "agi_network_script: demo.agi"
                          ++ nl ++ nl ++ "200 result=0" ++ nl)))
              Hwf Hblank eq_refl eq_refl)
    as (s' & Hrun & Hreader & Henv & _ & _).
  exists s'. repeat split; [done | done | |]; rewrite Henv;
    vm_compute; reflexivity.
Defined.

(** The header of section 8 of the specification, parsed by the standalone
    constructor. *)
Example NewAgiSession_example :
  env <$> (match NewAgiSession ("agi_network: yes" ++ nl
                                ++ "agi_network_script: demo.agi" ++ nl ++ nl)
           with Ok s => Some s | _ => None end)
  = Some {[ ("agi_network" : gostring) := ("yes" : gostring);
            ("agi_network_script" : gostring) := ("demo.agi" : gostring) ]}.
Proof. vm_compute. reflexivity. Qed.

(** C5: when a header line without a colon (and not blank) follows a run
    of well-formed header lines, [readEnvironment] returns the "invalid
    environment line" error, the standalone constructor fails with it, and
    the connection worker logs it, never calls the handler, and exits
    through its deferred calls. *)
Theorem C5_malformed_line_aborts
    (kvs : list (gostring * gostring)) (bad rest : gostring)
    (handler : Handler) (serverCtx parent : Context) :
  Forall wire.wellFormed kvs →
  LF ∉ bad → ":"%char ∉ bad → strings.TrimSpace bad ≠ [] →
  let input := wire.headerLines kvs ++ bad ++ nl ++ rest in
  let err := Errorf ("invalid environment line: " ++ strings.TrimSpace bad) in
  (∀ s, reader s = input → fst (readEnvironment s) = Err err)
  ∧ NewWithContext input parent
    = Err (Wrap err "failed to read AGI environment")
  ∧ handleConnection handler serverCtx (mkConn input)
    = ([SetDeadline (30 * Second);
        Printf "Failed to read environment: %v" err;
        ConnClose; WgDone], None)
  ∧ handlerInvoked (fst (handleConnection handler serverCtx (mkConn input)))
    = false.
Proof.
  intros Hwf Hlf Hc Hne input err.
  assert (∀ s, reader s = input → fst (readEnvironment s) = Err err) as Hrun.
  { intros s Hr.
    by rewrite (readEnvironment_no_colon kvs bad rest s Hwf Hlf Hc Hne Hr). }
  split; [exact Hrun|].
  assert (handleConnection handler serverCtx (mkConn input)
          = ([SetDeadline (30 * Second);
              Printf "Failed to read environment: %v" err;
              ConnClose; WgDone], None)) as Hworker.
  { unfold handleConnection.
    specialize (Hrun (workerSession (mkConn input)) eq_refl).
    destruct (readEnvironment (workerSession (mkConn input))) as [r s'].
    simpl in Hrun. by subst r. }
  split; [|split; [exact Hworker|]].
  - unfold NewWithContext.
    match goal with |- context [readEnvironment ?s] =>
      specialize (Hrun s eq_refl); destruct (readEnvironment s) as [r s']
    end.
    simpl in Hrun. by subst r.
  - by rewrite Hworker.
Qed.

Lemma C5_witness :
  handlerInvoked
    (fst (handleConnection (λ _ s, (Ok (), s)) Background
            (mkConn ("agi_network: yes" ++ nl ++ "invalid line" ++ nl ++ nl))))
  = false.
Proof.
  assert (Forall wire.wellFormed [("agi_network" : gostring, " yes" : gostring)])
    as Hwf.
  { repeat first [apply Forall_nil | apply Forall_cons; split | split];
      apply (bool_decide_unpack _); vm_compute; exact I. }
  assert (LF ∉ ("invalid line" : gostring)) as Hlf.
  { apply (bool_decide_unpack _); vm_compute; exact I. }
  assert (":"%char ∉ ("invalid line" : gostring)) as Hc.
  { apply (bool_decide_unpack _); vm_compute; exact I. }
  assert (strings.TrimSpace "invalid line" ≠ []) as Hne.
  { apply (bool_decide_unpack _); vm_compute; exact I. }
  exact (proj2 (proj2 (proj2
    (C5_malformed_line_aborts _ "invalid line" nl (λ _ s, (Ok (), s))
       Background Background Hwf Hlf Hc Hne)))).
Defined.


(** ** The server: shutdown *)

Section shutdown.

Import server.

Implicit Types (s : state) (l : label) (ls : list label) (ws : list workerPc).

Lemma run_app ls1 ls2 s :
  run (ls1 ++ ls2) s = match run ls1 s with
                       | Some s' => run ls2 s'
                       | None => None
                       end.
Proof.
  revert s. induction ls1 as [|l ls1 IH]; intros s; simpl; [done|].
  destruct (exec l s); [apply IH | done].
Qed.

Lemma run_snoc ls l s s' :
  run (ls ++ [l]) s = Some s' ↔ ∃ s1, run ls s = Some s1 ∧ exec l s1 = Some s'.
Proof.
  rewrite run_app. destruct (run ls s) as [s1|]; simpl.
  - destruct (exec l s1) eqn:E; naive_solver.
  - naive_solver.
Qed.

(** Induction on executions, last statement first. *)
Lemma run_ind (s0 : state) (P : list label → state → Prop) :
  P [] s0 →
  (∀ ls s l s', run ls s0 = Some s → P ls s → exec l s = Some s' →
                P (ls ++ [l]) s') →
  ∀ ls s, run ls s0 = Some s → P ls s.
Proof.
  intros Hinit Hstep ls. induction ls as [|l ls IH] using rev_ind; intros s.
  - by intros [= <-].
  - intros (s1 & Hrun & Hexec)%run_snoc. eapply Hstep; eauto.
Qed.

Lemma running_snoc ws : running (ws ++ [Running]) = S (running ws).
Proof. induction ws as [|[] ws IH]; simpl; by rewrite ?IH. Qed.

Lemma running_exit ws i :
  ws !! i = Some Running → S (running (<[i := Exited]> ws)) = running ws.
Proof.
  revert i. induction ws as [|w ws IH]; intros i Hi; [done|].
  destruct i as [|i]; simpl in *.
  - by injection Hi as ->.
  - destruct w; simpl; by rewrite (IH i Hi).
Qed.

Lemma running_0 ws : running ws = 0 → Forall (λ w, w = Exited) ws.
Proof.
  induction ws as [|[] ws IH]; simpl; intros H; [done | lia |].
  constructor; [done | by apply IH].
Qed.

Lemma inv_init : inv init.
Proof. unfold inv, init. simpl. naive_solver. Qed.

Lemma inv_exec l s s' : exec l s = Some s' → inv s → inv s'.
Proof.
  destruct s as [c cl n sv st ws]. unfold inv. simpl.
  intros Hexec (Hcl & Hc & Hwg).
  destruct l, sv, st; simpl in Hexec;
    repeat match type of Hexec with
           | context [ws !! ?i] => destruct (ws !! i) as [[]|] eqn:Hi
           | context [match n with _ => _ end] => destruct n
           | context [if cl then _ else _] => destruct cl
           end;
    simplify_eq/=;
    rewrite ?running_snoc;
    try (pose proof (running_exit _ _ Hi));
    (split; [|split]); try naive_solver lia.
Qed.

Lemma reachable_inv s : reachable s → inv s.
Proof.
  intros [ls Hrun]. revert ls s Hrun. apply run_ind.
  - apply inv_init.
  - intros ls s l s' _ Hinv Hexec. by eapply inv_exec.
Qed.

Lemma running_pos ws i : ws !! i = Some Running → 0 < running ws.
Proof.
  revert i. induction ws as [|w ws IH]; intros i Hi; [done|].
  destruct i as [|i]; simpl in *.
  - injection Hi as ->. simpl. lia.
  - specialize (IH i Hi). destruct w; simpl; lia.
Qed.

(** The counter never goes negative: a worker in flight can always run
    its [Done]. *)
Lemma worker_can_exit s i :
  reachable s → workers s !! i = Some Running →
  is_Some (exec (WorkerExit i) s).
Proof.
  intros Hr Hi. destruct (reachable_inv s Hr) as (_ & _ & Hwg).
  destruct s as [c cl n sv st ws]. simpl in *. rewrite Hi.
  pose proof (running_pos ws i Hi) as Hpos.
  destruct n as [|n]; [lia|]. by eexists.
Qed.

(** How a statement moves the program point of [Stop]. *)
Lemma exec_stop l s s' :
  exec l s = Some s' →
  match l with
  | StopCall => stop s = NotCalled ∧ stop s' = Called
  | StopCancel => stop s = Called ∧ stop s' = Signalled
  | StopClose => stop s = Signalled ∧ stop s' = Waiting
  | StopWaitReturn => stop s = Waiting ∧ stop s' = StopReturned ∧ wg s = 0
  | _ => stop s' = stop s
  end.
Proof.
  destruct s as [c cl n sv st ws]. intros Hexec.
  destruct l, sv, st; simpl in Hexec;
    repeat match type of Hexec with
           | context [ws !! ?i] => destruct (ws !! i) as [[]|]
           | context [match n with _ => _ end] => destruct n
           | context [if cl then _ else _] => destruct cl
           end;
    by simplify_eq/=.
Qed.

(** How a statement changes the workers. *)
Lemma exec_workers l s s' :
  exec l s = Some s' →
  match l with
  | WorkerExit i =>
      workers s !! i = Some Running ∧ workers s' = <[i := Exited]> (workers s)
  | Go => workers s' = workers s ++ [Running]
  | _ => workers s' = workers s
  end.
Proof.
  destruct s as [c cl n sv st ws]. intros Hexec.
  destruct l, sv, st; simpl in Hexec;
    repeat match type of Hexec with
           | context [ws !! ?i] => destruct (ws !! i) as [[]|] eqn:?
           | context [match n with _ => _ end] => destruct n
           | context [if cl then _ else _] => destruct cl
           end;
    by simplify_eq/=.
Qed.

(** A worker seen in flight and later seen exited has run its [Done] in
    between. *)
Lemma worker_exit_in_trace ls s s' i :
  run ls s = Some s' →
  workers s !! i = Some Running → workers s' !! i = Some Exited →
  WorkerExit i ∈ ls.
Proof.
  revert s. induction ls as [|l ls IH]; intros s Hrun Hi Hi'; simpl in Hrun.
  - simplify_eq; congruence.
  - destruct (exec l s) as [s1|] eqn:Hexec; [|done].
    destruct (decide (l = WorkerExit i)) as [->|Hl]; [left|].
    right. apply (IH s1 Hrun); [|done].
    pose proof (exec_workers _ _ _ Hexec) as Hw.
    destruct l; try (by rewrite Hw).
    + rewrite Hw. by apply lookup_app_l_Some.
    + destruct Hw as [_ ->]. rewrite list_lookup_insert_ne; [done|].
      intros ->. done.
Qed.

(** Between the program points [Signalled] and [Waiting] lies the close
    of the listener. *)
Lemma close_in_trace ls s s' :
  run ls s = Some s' → stop s = Signalled → stop s' = Waiting →
  ∃ lb lc, ls = lb ++ StopClose :: lc.
Proof.
  revert s. induction ls as [|l ls IH]; intros s Hrun Hs Hs'; simpl in Hrun.
  - simplify_eq; congruence.
  - destruct (exec l s) as [s1|] eqn:Hexec; [|done].
    destruct (decide (l = StopClose)) as [->|Hl]; [by exists [], ls|].
    pose proof (exec_stop _ _ _ Hexec) as Hst.
    destruct (IH s1 Hrun) as (lb & lc & ->); [|done|by exists (l :: lb), lc].
    destruct l; try done; try congruence; naive_solver congruence.
Qed.

(** Between [Called] and [Waiting] lie the cancellation and, after it, the
    close of the listener. *)
Lemma cancel_close_in_trace ls s s' :
  run ls s = Some s' → stop s = Called → stop s' = Waiting →
  ∃ la lb lc, ls = la ++ StopCancel :: lb ++ StopClose :: lc.
Proof.
  revert s. induction ls as [|l ls IH]; intros s Hrun Hs Hs'; simpl in Hrun.
  - simplify_eq; congruence.
  - destruct (exec l s) as [s1|] eqn:Hexec; [|done].
    pose proof (exec_stop _ _ _ Hexec) as Hst.
    destruct (decide (l = StopCancel)) as [->|Hl].
    + destruct Hst as [_ Hst].
      destruct (close_in_trace ls s1 s' Hrun Hst Hs') as (lb & lc & ->).
      by exists [], lb, lc.
    + destruct (IH s1 Hrun) as (la & lb & lc & ->);
        [|done|by exists (l :: la), lb, lc].
      destruct l; try done; try congruence; naive_solver congruence.
Qed.

(** [Accept] failing on the closed listener makes [Serve] return nil. *)
Lemma accept_closed_returns_nil s s' :
  reachable s → exec AcceptClosed s = Some s' →
  serve s' = ServeReturned None.
Proof.
  intros Hr Hexec. destruct (reachable_inv s Hr) as (Hcl & Hc & _).
  destruct s as [c cl n sv st ws]. simpl in *.
  destruct sv; try done. destruct cl; [|done]. simplify_eq/=.
  rewrite Hc; [done|]. destruct Hcl as [Hcl _]. naive_solver.
Qed.

Lemma run_app_Some ls1 ls2 s s' :
  run (ls1 ++ ls2) s = Some s' ↔
  ∃ s1, run ls1 s = Some s1 ∧ run ls2 s1 = Some s'.
Proof. rewrite run_app. destruct (run ls1 s); naive_solver. Qed.

Lemma reachable_run ls s s' : reachable s → run ls s = Some s' → reachable s'.
Proof.
  intros [ls0 H0] H. exists (ls0 ++ ls). apply run_app_Some. by exists s.
Qed.

(** Workers are never removed from the list. *)
Lemma run_workers_lookup ls s s' i :
  run ls s = Some s' → is_Some (workers s !! i) → is_Some (workers s' !! i).
Proof.
  revert s. induction ls as [|l ls IH]; intros s Hrun Hi; simpl in Hrun.
  - by simplify_eq.
  - destruct (exec l s) as [s1|] eqn:Hexec; [|done].
    apply (IH s1 Hrun). pose proof (exec_workers _ _ _ Hexec) as Hw.
    apply lookup_lt_is_Some. apply lookup_lt_is_Some in Hi.
    destruct l; try (by rewrite Hw).
    + rewrite Hw, length_app. lia.
    + destruct Hw as [_ ->]. by rewrite length_insert.
Qed.

Lemma exec_wait_return s s' :
  exec StopWaitReturn s = Some s' → wg s' = 0 ∧ workers s' = workers s.
Proof.
  destruct s as [c cl n sv st ws]. simpl.
  destruct sv, st, n; by intros [= <-].
Qed.

(** When the counter is zero, every worker started so far has exited. *)
Lemma drained s i :
  reachable s → wg s = 0 → is_Some (workers s !! i) →
  workers s !! i = Some Exited.
Proof.
  intros Hr Hwg [w Hw]. destruct (reachable_inv s Hr) as (_ & _ & Hinv).
  assert (running (workers s) = 0) as H0 by lia.
  apply running_0 in H0. rewrite Forall_forall in H0.
  rewrite Hw. f_equal. apply H0. by eapply list_elem_of_lookup_2.
Qed.

End shutdown.

(** C8: take any execution in which [Stop] is called in a state [s0] and
    returns.  Between the call and the return [Stop] first cancels the
    server context and then closes the listener; every worker that was in
    flight at the call has run its deferred [Done]; at the return the
    counter of the wait group is zero, no worker is in flight, the
    listener is closed and the context cancelled; and wherever [Accept]
    failed on the closed listener in between, [Serve] returned nil. *)
Theorem C8_stop_drains_workers
    (ls0 ls1 : list server.label) (s0 s : server.state) :
  server.run ls0 server.init = Some s0 →
  server.run (server.StopCall :: ls1 ++ [server.StopWaitReturn]) s0 = Some s →
  (∃ la lb lc,
      ls1 = la ++ server.StopCancel :: lb ++ server.StopClose :: lc)
  ∧ (∀ i, server.workers s0 !! i = Some server.Running →
          server.WorkerExit i ∈ ls1)
  ∧ server.wg s = 0 ∧ server.inFlight s = 0
  ∧ server.closed s = true ∧ server.cancelled s = true
  ∧ (∀ lx ly, ls1 = lx ++ server.AcceptClosed :: ly →
       ∃ sx, server.run (server.StopCall :: lx ++ [server.AcceptClosed]) s0
             = Some sx
             ∧ server.serve sx = server.ServeReturned None).
Proof.
  intros Hrun0 Hrun.
  assert (server.reachable s0) as Hr0 by (by exists ls0).
  pose proof (reachable_run _ _ _ Hr0 Hrun) as Hr.
  simpl in Hrun.
  destruct (server.exec server.StopCall s0) as [sa|] eqn:Hcall; [|done].
  apply run_snoc in Hrun as (sb & Hrun1 & Hwait).
  assert (server.reachable sa) as Hra.
  { apply (reachable_run [server.StopCall] s0); [done|]. simpl. by rewrite Hcall. }
  pose proof (reachable_run _ _ _ Hra Hrun1) as Hrb.
  pose proof (exec_stop _ _ _ Hcall) as [_ Hsa]. simpl in Hsa.
  pose proof (exec_workers _ _ _ Hcall) as Hwa. simpl in Hwa.
  pose proof (exec_stop _ _ _ Hwait) as (Hsb & Hs & Hwgb). simpl in *.
  pose proof (exec_wait_return _ _ Hwait) as [Hwg Hws].
  destruct (reachable_inv s Hr) as (Hcl & Hc & Hinv).
  repeat split.
  - by apply (cancel_close_in_trace ls1 sa sb).
  - intros i Hi. apply (worker_exit_in_trace ls1 sa sb); [done| |].
    + by rewrite Hwa.
    + apply drained; [done..|].
      apply (run_workers_lookup ls1 sa); [done|]. rewrite Hwa, Hi. by eexists.
  - done.
  - unfold server.inFlight. lia.
  - apply Hcl. by right.
  - apply Hc. by right; right.
  - intros lx ly ->. apply run_app_Some in Hrun1 as (s1 & Hx & Hy).
    simpl in Hy.
    destruct (server.exec server.AcceptClosed s1) as [sx|] eqn:Hacc; [|done].
    exists sx. split.
    + simpl. rewrite Hcall. apply run_snoc. by exists s1.
    + apply (accept_closed_returns_nil s1); [|done].
      by apply (reachable_run lx sa).
Qed.

Lemma C8_witness :
  server.WorkerExit 0
    ∈ [server.StopCancel; server.WorkerExit 0; server.StopClose;
       server.AcceptClosed; server.WorkerExit 1]
  ∧ server.WorkerExit 1
    ∈ [server.StopCancel; server.WorkerExit 0; server.StopClose;
       server.AcceptClosed; server.WorkerExit 1].
Proof.
  assert (server.run [server.AcceptOk; server.WgAdd; server.Go;
                      server.AcceptOk; server.WgAdd; server.Go] server.init
          = Some (server.mkState false false 2 server.Accepting
                    server.NotCalled [server.Running; server.Running]))
    as Hrun0 by (vm_compute; reflexivity).
  assert (server.run
            (server.StopCall
             :: [server.StopCancel; server.WorkerExit 0; server.StopClose;
                 server.AcceptClosed; server.WorkerExit 1]
             ++ [server.StopWaitReturn])
            (server.mkState false false 2 server.Accepting
               server.NotCalled [server.Running; server.Running])
          = Some (server.mkState true true 0 (server.ServeReturned None)
                    server.StopReturned [server.Exited; server.Exited]))
    as Hrun by (vm_compute; reflexivity).
  destruct (C8_stop_drains_workers _ _ _ _ Hrun0 Hrun) as (_ & Hexit & _).
  split; apply Hexit; reflexivity.
Defined.


(** ** More on the reply parser and on [Close] *)

Section codec.

Implicit Types (line t : gostring) (s : AgiSession).

Lemma sliceFrom_4 (a b c d : ascii) t :
  sliceFrom (a :: b :: c :: d :: t) 4 = Ok t.
Proof.
  unfold sliceFrom. rewrite andb_true_intro; [done|].
  split; [done|]. apply Z.leb_le. simpl length. lia.
Qed.

(** Splitting in two at the first space keeps the first byte in the first
    part, when that byte is not a space. *)
Lemma SplitN_2_head (c : ascii) t :
  c ≠ " "%char →
  strings.SplitN (c :: t) " " 2 = [c :: t]
  ∨ ∃ p0 p1, strings.SplitN (c :: t) " " 2 = [c :: p0; p1].
Proof.
  intros Hc. unfold strings.SplitN.
  change (String.list_ascii_of_string " ") with [" "%char].
  change (2 <? 0)%Z with false. change (Z.to_nat 2) with 2.
  cbn [strings.splitUpTo strings.Index strings.HasPrefix].
  rewrite bool_decide_eq_false_2 by done. cbn [andb].
  destruct (strings.Index t [" "%char]) as [m|]; [right|left; done].
  cbn [fmap option_fmap option_map take]. by eexists _, _.
Qed.

Lemma Atoi_letter t :
  strconv.Atoi ("r"%char :: t) = inl (NumError "Atoi" ("r"%char :: t) ErrSyntax).
Proof. reflexivity. Qed.

(** No line of the documented form [200 result=...] is parsed: the token
    handed to [strconv.Atoi] starts with the letter of the key. *)
Lemma parseResponse_rejects_result_key line :
  strings.HasPrefix (strings.TrimSpace line) "200 result=" = true →
  ∃ e, parseResponse line = Err e.
Proof.
  intros [t Ht]%HasPrefix_spec. unfold parseResponse. rewrite Ht.
  set (rest := "esult=" ++ t).
  change (String.list_ascii_of_string "200 result=" ++ t)
    with ("2"%char :: "0"%char :: "0"%char :: " "%char :: "r"%char :: rest).
  change (strings.HasPrefix _ (String.list_ascii_of_string "200")) with true.
  cbn [negb]. rewrite sliceFrom_4. cbn [rbind].
  destruct (SplitN_2_head "r"%char rest) as [->|(p0 & p1 & ->)]; [done| |].
  - by eexists.
  - rewrite Atoi_letter. by eexists.
Qed.

(** The parser panics on exactly the lines that trim to the bare marker. *)
Lemma parseResponse_panics_iff line :
  (∃ p, parseResponse line = Panic p) ↔ strings.TrimSpace line = "200".
Proof.
  unfold parseResponse. split.
  - intros [p Hp].
    destruct (strings.HasPrefix (strings.TrimSpace line) "200") eqn:E;
      [|done]. simpl in Hp.
    apply HasPrefix_spec in E as [t Ht]. rewrite Ht in *.
    destruct t as [|c t]; [done|]. exfalso.
    change (String.list_ascii_of_string "200" ++ c :: t)
      with ("2"%char :: "0"%char :: "0"%char :: c :: t) in Hp.
    rewrite sliceFrom_4 in Hp. cbn [rbind] in Hp.
    destruct (strings.SplitN _ _ _) as [|p0 [|p1 [|p2 ps]]]; try done.
    by destruct (strconv.Atoi p0).
  - intros ->. by eexists.
Qed.

(** [readEnvironment] writes the reader and the environment only. *)
Lemma readEnvLoop_frame n s :
  let s' := snd (readEnvLoop n s) in
  cancelFunc s' = cancelFunc s ∧ ctx s' = ctx s ∧ writer s' = writer s.
Proof.
  revert s. induction n as [|n IH]; intros s; simpl; [done|].
  destruct (bufio.ReadString LF (reader s)) as [[line rest] [e|]]; [done|].
  case_bool_decide; [done|].
  destruct (strings.SplitN _ _ _) as [|p0 [|p1 [|p2 ps]]]; try done.
  apply (IH (set_env _ (set_reader rest s))).
Qed.

(** Whatever the header, the session the worker hands to the handler
    cannot be closed. *)
Lemma Close_panics_in_worker conn s :
  readEnvironment (workerSession conn) = (Ok (), s) →
  fst (Close s) = Panic NilDeref.
Proof.
  intros Hrun.
  pose proof (readEnvLoop_frame (S (length (inbound conn))) (workerSession conn))
    as (Hc & _).
  unfold readEnvironment in Hrun. simpl in Hrun, Hc. rewrite Hrun in Hc.
  unfold Close. simpl in Hc. by rewrite Hc.
Qed.

(** [Close] with a cancel function cancels the context of the session and
    touches nothing else. *)
Lemma Close_cancels s parent b :
  cancelFunc s = Some CancelSessionCtx → ctx s = Some (cancelCtx parent b) →
  Close s = (Ok (), set_ctx (Some (cancelCtx parent true)) s)
  ∧ Done (cancelCtx parent true) = true.
Proof. intros Hf Hc. unfold Close. by rewrite Hf, Hc. Qed.

(** On a session of the standalone constructor [Close] succeeds, and
    closing again changes nothing. *)
Lemma Close_idempotent_standalone stdin parent s :
  NewWithContext stdin parent = Ok s →
  ∃ s1, Close s = (Ok (), s1) ∧ Close s1 = (Ok (), s1).
Proof.
  unfold NewWithContext, readEnvironment.
  match goal with |- context [readEnvLoop ?n ?s0] =>
    pose proof (readEnvLoop_frame n s0) as (Hc & Hx & _);
    destruct (readEnvLoop n s0) as [[[]|e|p] s'] eqn:E
  end; intros [= <-].
  simpl in Hc, Hx. unfold Close. rewrite Hc. eexists. split; [done|].
  simpl. rewrite Hc, Hx. reflexivity.
Qed.

(** Every path through the worker ends with the deferred [Done]. *)
Lemma handleConnection_ends_with_Done handler serverCtx conn :
  last (fst (handleConnection handler serverCtx conn)) = Some WgDone.
Proof.
  unfold handleConnection.
  destruct (readEnvironment _) as [[[]|e|p] s']; [|done..].
  by destruct (handler _ _) as [[[]|e|p] s''].
Qed.

(** A reply that the parser accepts, with result -1: [GetOption] returns
    the empty string and no error, [WaitForDigit] the encoding of U+FFFD. *)
Example GetOption_parsed_timeout :
  fst (GetOption "menu" "123" 5000
         (workerSession (mkConn ("200 -1 (timeout)" ++ nl))))
  = Ok [].
Proof. vm_compute. reflexivity. Qed.

Example WaitForDigit_parsed_timeout :
  fst (WaitForDigit 5000 (workerSession (mkConn ("200 -1 (timeout)" ++ nl))))
  = Ok ["239"; "191"; "189"]%char.
Proof. vm_compute. reflexivity. Qed.

End codec.


(** ** The reply parser of util.go *)

Section ParseAGIResult.

Implicit Types (tok rest payload line : gostring) (n : Z).

Lemma parseDigits_digits s a n :
  strconv.parseDigits s a = inr n →
  ∀ c, c ∈ s → is_Some (strconv.digitVal c).
Proof.
  revert a. induction s as [|c s IH]; intros a H c' Hc'.
  - by apply elem_of_nil in Hc'.
  - simpl in H. destruct (strconv.digitVal c) as [d|] eqn:E; [|done].
    destruct (_ <=? a)%Z; [done|]. destruct (_ <? _)%Z; [done|].
    apply elem_of_cons in Hc' as [->|Hc']; [by rewrite E|]. by eapply IH.
Qed.

Lemma parseDigits_no_space s n :
  strconv.parseDigits s 0 = inr n → " "%char ∉ s.
Proof.
  intros H Hin. by destruct (parseDigits_digits _ _ _ H _ Hin) as [d Hd].
Qed.

(** A token that [Atoi] accepts holds no space. *)
Lemma Atoi_no_space tok n : strconv.Atoi tok = inr n → " "%char ∉ tok.
Proof.
  unfold strconv.Atoi. destruct tok as [|c t]; [done|].
  repeat case_bool_decide; subst.
  - destruct t as [|a t]; [done|].
    destruct (strconv.parseDigits (a :: t) 0) as [e|un] eqn:E; [done|].
    intros _ [?|Hin]%elem_of_cons; [done|]. by eapply parseDigits_no_space.
  - destruct t as [|a t]; [done|].
    destruct (strconv.parseDigits (a :: t) 0) as [e|un] eqn:E; [done|].
    intros _ [?|Hin]%elem_of_cons; [done|]. by eapply parseDigits_no_space.
  - destruct (strconv.parseDigits (c :: t) 0) as [e|un] eqn:E; [done|].
    intros _. by eapply parseDigits_no_space.
Qed.

(** [ParseAGIResult] on a reply with a result token and a rest. *)
Lemma ParseAGIResult_rest tok n rest :
  strconv.Atoi tok = inr n →
  ParseAGIResult ("200 result=" ++ tok ++ " " ++ rest)
  = let data := strings.TrimSpace rest in
    if strings.HasPrefix data "(" && strings.HasSuffix data ")"
    then let* d := slice data 1 (Z.of_nat (length data) - 1) in Ok (n, d)
    else Ok (n, data).
Proof.
  intros Hn. pose proof (Atoi_no_space _ _ Hn) as Hsp.
  unfold ParseAGIResult. set (body := tok ++ " " ++ rest).
  change (strings.HasPrefix ("200 result=" ++ body) "200") with true.
  change (strings.TrimPrefix ("200 result=" ++ body) "200 ")
    with ("result=" ++ body).
  change (strings.HasPrefix ("result=" ++ body) "result=") with true.
  change (strings.TrimPrefix ("result=" ++ body) "result=") with body.
  cbn [negb]. unfold body.
  change (tok ++ " " ++ rest) with (tok ++ " "%char :: rest).
  change (String.list_ascii_of_string " ") with [" "%char].
  rewrite (SplitN_2_byte " "%char tok rest Hsp).
  cbn [index lookup list_lookup rbind length]. rewrite Hn.
  change (1 <? 2) with true. cbn [index lookup list_lookup rbind].
  reflexivity.
Qed.

(** A parenthesized payload is unwrapped. *)
Lemma ParseAGIResult_parenthesized tok n payload :
  strconv.Atoi tok = inr n →
  ParseAGIResult ("200 result=" ++ tok ++ " (" ++ payload ++ ")")
  = Ok (n, payload).
Proof.
  intros Hn.
  change ("200 result=" ++ tok ++ " (" ++ payload ++ ")")
    with ("200 result=" ++ tok ++ " " ++ ("("%char :: payload ++ [")"%char])).
  rewrite (ParseAGIResult_rest _ _ _ Hn). cbv zeta.
  rewrite TrimSpace_parenthesized.
  change (strings.HasPrefix ("("%char :: payload ++ [")"%char]) "(") with true.
  unfold strings.HasSuffix.
  change ("("%char :: payload ++ [")"%char])
    with (("("%char :: payload) ++ [")"%char]) at 1.
  rewrite reverse_snoc.
  change (strings.HasPrefix (")"%char :: reverse ("("%char :: payload))
            (reverse ")")) with true.
  cbn [andb]. unfold slice. rewrite !length_cons, !length_app.
  cbn [length].
  rewrite (andb_true_intro (b1 := (0 <=? _)%Z)) by (split; apply Z.leb_le; lia).
  rewrite (andb_true_intro (b1 := (0 <=? 1)%Z)) by (split; apply Z.leb_le; lia).
  cbn [negb rbind].
  replace (Z.to_nat (Z.of_nat (S (length payload + 1)) - 1 - 1))
    with (length payload) by lia.
  change (Z.to_nat 1) with 1. cbn [drop].
  by rewrite drop_0, take_app_length.
Qed.

(** A reply without a rest has no data. *)
Lemma ParseAGIResult_bare tok n :
  strconv.Atoi tok = inr n →
  ParseAGIResult ("200 result=" ++ tok) = Ok (n, []).
Proof.
  intros Hn. pose proof (Atoi_no_space _ _ Hn) as Hsp.
  unfold ParseAGIResult.
  change (strings.HasPrefix ("200 result=" ++ tok) "200") with true.
  change (strings.TrimPrefix ("200 result=" ++ tok) "200 ")
    with ("result=" ++ tok).
  change (strings.HasPrefix ("result=" ++ tok) "result=") with true.
  change (strings.TrimPrefix ("result=" ++ tok) "result=") with tok.
  cbn [negb]. change (String.list_ascii_of_string " ") with [" "%char].
  rewrite (SplitN_2_absent " "%char tok Hsp).
  cbn [index lookup list_lookup rbind length]. by rewrite Hn.
Qed.

(** What [parseResponse] returns, when it returns a reply: the marker is
    there, the token after it is the result, and the data is the trimmed
    rest as it stands. *)
Lemma parseResponse_Ok line resp :
  parseResponse line = Ok resp →
  Status resp = 1%Z ∧ Raw resp = strings.TrimSpace line
  ∧ strings.HasPrefix (strings.TrimSpace line) "200" = true
  ∧ ∃ p0 p1,
      strings.SplitN (drop 4 (strings.TrimSpace line)) " " 2 = [p0; p1]
      ∧ strconv.Atoi p0 = inr (Result resp)
      ∧ Data resp = strings.TrimSpace p1.
Proof.
  unfold parseResponse.
  destruct (strings.HasPrefix (strings.TrimSpace line) "200") eqn:E; [|done].
  cbn [negb]. unfold sliceFrom.
  destruct (_ && _)%bool; [|done]. cbn [rbind].
  change (Z.to_nat 4) with 4.
  destruct (strings.SplitN _ _ _) as [|p0 [|p1 [|p2 ps]]] eqn:Es; try done.
  destruct (strconv.Atoi p0) as [e|r] eqn:Ea; [done|].
  intros [= <-]. simpl. repeat split. by exists p0, p1.
Qed.

End ParseAGIResult.

(** C1: the reply parser does not parse the documented reply.  On the
    line "200 result=1 (hello)" [parseResponse] cuts the line after its
    fourth byte, hands the token "result=1" to [strconv.Atoi] and
    returns the wrapped syntax error; on "200 result=1" it finds no
    second part and returns the format error; and it returns an error
    on every line that trims to one starting with "200 result=".  The
    helper [ParseAGIResult], which the codec never calls, does read the
    example as result 1 and data "hello".  What [parseResponse] does
    accept is the line without the key, and there it keeps the
    parentheses in the data. *)
Theorem C1_result_key_reply_not_parsed :
  parseResponse "200 result=1 (hello)"
  = Err (Wrap (NumError "Atoi" "result=1" ErrSyntax) "failed to parse result")
  ∧ parseResponse "200 result=1"
    = Err (Errorf "invalid response format: 200 result=1")
  ∧ (∀ line,
       strings.HasPrefix (strings.TrimSpace line) "200 result=" = true →
       ∃ e, parseResponse line = Err e)
  ∧ ParseAGIResult "200 result=1 (hello)" = Ok (1%Z, "hello" : gostring)
  ∧ parseResponse "200 1 (hello)"
    = Ok (mkResponse 1 1 "(hello)" "200 1 (hello)" 0 [] false).
Proof.
  split; [vm_compute; reflexivity|].
  split; [vm_compute; reflexivity|].
  split; [apply parseResponse_rejects_result_key|].
  split; vm_compute; reflexivity.
Qed.

(** ** Replies without the marker *)

Section protocol_error.

(** [execute] on a reply line without the marker. *)
Lemma execute_non_200 (command line rest : gostring) (s : AgiSession) :
  strings.HasPrefix (strings.TrimSpace line) "200" = false →
  broken (writer s) = false → LF ∉ line →
  reader s = line ++ nl ++ rest →
  fst (execute command s)
  = Err (Errorf ("invalid response: " ++ strings.TrimSpace line)).
Proof.
  intros Hp Hw Hlf Hr. unfold execute. cbv zeta.
  set (s0 := if debugMode s then _ else s).
  assert (writer s0 = writer s ∧ reader s0 = reader s) as [Hw0 Hr0].
  { unfold s0. by destruct (debugMode s). }
  clearbody s0. unfold Fprint. rewrite Hw0, Hw.
  cbn [set_writer reader]. rewrite Hr0, Hr.
  change (line ++ nl ++ rest) with (line ++ LF :: rest).
  rewrite ReadString_line by done. cbn [fst].
  change (line ++ [LF]) with (line ++ nl).
  unfold parseResponse. by rewrite TrimSpace_nl, Hp.
Qed.

End protocol_error.

(** C2: a line that, once trimmed, does not start with "200" is rejected
    with the "invalid response" error, and no reply value is returned; a
    command whose reply is such a line fails with that error. *)
Theorem C2_non_200_is_protocol_error (line : gostring) :
  strings.HasPrefix (strings.TrimSpace line) "200" = false →
  parseResponse line
    = Err (Errorf ("invalid response: " ++ strings.TrimSpace line))
  ∧ (∀ resp, parseResponse line ≠ Ok resp)
  ∧ (∀ command s rest,
       broken (writer s) = false → LF ∉ line →
       reader s = line ++ nl ++ rest →
       fst (execute command s)
       = Err (Errorf ("invalid response: " ++ strings.TrimSpace line))).
Proof.
  intros Hp. split; [|split].
  - unfold parseResponse. by rewrite Hp.
  - intros resp. unfold parseResponse. by rewrite Hp.
  - intros command s rest. by apply execute_non_200.
Qed.

Lemma C2_witness :
  parseResponse "500 invalid command"
  = Err (Errorf "invalid response: 500 invalid command").
Proof.
  exact (proj1 (C2_non_200_is_protocol_error "500 invalid command" eq_refl)).
Defined.


(** * Further properties of the package *)

(** ** Commands and replies *)

Section execute.

Implicit Types (s : AgiSession) (command line rest tok : gostring) (n : Z).

Lemma parseResponse_nl line : parseResponse (line ++ nl) = parseResponse line.
Proof. unfold parseResponse. by rewrite TrimSpace_nl. Qed.

Lemma ReadString_absent (d : ascii) (r : gostring) :
  d ∉ r → bufio.ReadString d r = (r, [], Some EOF).
Proof.
  induction r as [|c r IH]; intros Hd; simpl; [done|].
  apply not_elem_of_cons in Hd as [Hc Hd].
  rewrite bool_decide_eq_false_2 by done. by rewrite IH.
Qed.

Lemma execute_line command line rest s :
  broken (writer s) = false → LF ∉ line →
  reader s = line ++ nl ++ rest →
  execute command s
  = (parseResponse line, commands.afterCommand command line rest s).
Proof.
  intros Hw Hlf Hr. unfold execute, commands.afterCommand, Fprint.
  destruct s as [r w e v d t c f err]. simpl in *. subst r.
  destruct d; simpl; rewrite Hw;
    change (line ++ nl ++ rest) with (line ++ LF :: rest);
    rewrite ReadString_line by done; simpl;
    change (line ++ [LF]) with (line ++ nl);
    by rewrite parseResponse_nl.
Qed.

(** The replies [parseResponse] accepts: the marker, any one byte, a token
    that [Atoi] reads, a space and a rest. *)
Lemma parseResponse_accepts line (c : ascii) tok rest n :
  strings.TrimSpace line = "200" ++ c :: tok ++ " " ++ rest →
  strconv.Atoi tok = inr n →
  parseResponse line
  = Ok (mkResponse 1 n (strings.TrimSpace rest) (strings.TrimSpace line)
          0 [] false).
Proof.
  intros Ht Hn. pose proof (Atoi_no_space _ _ Hn) as Hsp.
  unfold parseResponse. rewrite Ht.
  change ("200" ++ c :: tok ++ " " ++ rest)
    with ("2"%char :: "0"%char :: "0"%char :: c :: tok ++ " "%char :: rest).
  change (strings.HasPrefix _ (String.list_ascii_of_string "200")) with true.
  cbn [negb]. rewrite sliceFrom_4. cbn [rbind].
  change (String.list_ascii_of_string " ") with [" "%char].
  rewrite (SplitN_2_byte " "%char tok rest Hsp). by rewrite Hn.
Qed.

Lemma execute_Ok command s resp s' :
  execute command s = (Ok resp, s') → ∃ line, parseResponse line = Ok resp.
Proof.
  unfold execute. destruct (Fprint _ _) as [e|w]; [done|].
  destruct (bufio.ReadString _ _) as [[line rest] [e|]]; [done|].
  intros [= H _]. by exists line.
Qed.

Lemma EncodeRune_nonempty (r : Z) : 0 < length (utf8.EncodeRune r).
Proof. unfold utf8.EncodeRune. repeat case_match; simpl; lia. Qed.

End execute.

(** X1: the replies that [parseResponse] accepts.  When the trimmed line is
    the marker "200", one further byte of any value, a token that [Atoi]
    reads as [n], a space and a rest, the reply is accepted with status 1,
    result [n], the trimmed rest as data and the trimmed line as raw text.
    The byte after the marker is never looked at. *)
Theorem X1_parseResponse_accepted_form
    (line : gostring) (c : ascii) (tok rest : gostring) (n : Z) :
  strings.TrimSpace line = "200" ++ c :: tok ++ " " ++ rest →
  strconv.Atoi tok = inr n →
  parseResponse line
  = Ok (mkResponse 1 n (strings.TrimSpace rest) (strings.TrimSpace line)
          0 [] false).
Proof. apply parseResponse_accepts. Qed.

Lemma X1_witness :
  parseResponse ("200-17 (timeout) " ++ nl)
  = Ok (mkResponse 1 17 "(timeout)" "200-17 (timeout)" 0 [] false).
Proof.
  apply (X1_parseResponse_accepted_form ("200-17 (timeout) " ++ nl)
           "-"%char "17" "(timeout)" 17); vm_compute; reflexivity.
Defined.

(** X2: a reply in the form that Asterisk sends, the marker followed by
    " result=", is rejected by [parseResponse] whatever follows, and a
    command that reads such a reply returns that error. *)
Theorem X2_result_key_reply_is_rejected (line : gostring) :
  strings.HasPrefix (strings.TrimSpace line) "200 result=" = true →
  ∃ e, parseResponse line = Err e
    ∧ ∀ command rest s,
        broken (writer s) = false → LF ∉ line →
        reader s = line ++ nl ++ rest →
        fst (execute command s) = Err e.
Proof.
  intros H. destruct (parseResponse_rejects_result_key _ H) as [e He].
  exists e. split; [done|]. intros command rest s Hw Hlf Hr.
  rewrite (execute_line _ _ _ _ Hw Hlf Hr). done.
Qed.

Lemma X2_witness :
  ∃ e, parseResponse "200 result=0"  = Err e
    ∧ fst (execute "ANSWER" (workerSession (mkConn ("200 result=0" ++ nl))))
      = Err e.
Proof.
  destruct (X2_result_key_reply_is_rejected "200 result=0") as [e [H1 H2]].
  - vm_compute. reflexivity.
  - exists e. split; [exact H1|].
    apply (H2 "ANSWER" [] (workerSession (mkConn ("200 result=0" ++ nl)))).
    + reflexivity.
    + apply (bool_decide_unpack _). vm_compute. exact I.
    + reflexivity.
Defined.

(** X3: [parseResponse] panics exactly on the lines that trim to the bare
    marker "200"; on every other line it returns a reply or an error. *)
Theorem X3_parseResponse_panics_only_on_bare_marker (line : gostring) :
  (∃ p, parseResponse line = Panic p) ↔ strings.TrimSpace line = "200".
Proof. apply parseResponse_panics_iff. Qed.

(** X4: the status tests of [WaitForDigit] and [GetVariable] never fire,
    since every accepted reply has status 1: [WaitForDigit] returns the
    result as a rune and [GetVariable] the data whenever the command
    succeeds, and [WaitForDigit] never returns the empty string. *)
Theorem X4_status_tests_never_fire
    (t : Z) (name : gostring) (s : AgiSession) :
  fst (WaitForDigit t s)
  = (let* resp :=
       fst (execute ("WAIT FOR DIGIT " ++ strconv.FormatInt t) s) in
     Ok (runeString (Result resp)))
  ∧ fst (commands.GetVariable name s)
    = (let* resp := fst (execute ("GET VARIABLE " ++ name) s) in
       Ok (Data resp))
  ∧ ∀ d, fst (WaitForDigit t s) = Ok d → 0 < length d.
Proof.
  assert (fst (WaitForDigit t s)
          = (let* resp :=
               fst (execute ("WAIT FOR DIGIT " ++ strconv.FormatInt t) s) in
             Ok (runeString (Result resp)))) as HW.
  { unfold WaitForDigit.
    destruct (execute _ s) as [[resp|e|p] s1] eqn:E; cbn [fst rbind];
      try done.
    apply execute_Ok in E as [line E]. apply parseResponse_Ok in E as [Hs _].
    case_bool_decide; [congruence | done]. }
  split; [exact HW|]. split.
  - unfold commands.GetVariable.
    destruct (execute ("GET VARIABLE " ++ name) s) as [[resp|e|p] s1] eqn:E;
      cbn [fst rbind negb];
      try done.
    apply execute_Ok in E as [line E]. apply parseResponse_Ok in E as [Hs _].
    case_bool_decide; [done | congruence].
  - intros d. rewrite HW.
    destruct (fst (execute _ s)) as [resp|e|p]; cbn [rbind]; try done.
    intros [= <-]. apply EncodeRune_nonempty.
Qed.

(** X5: one command on a working connection with a whole reply line
    pending.  The command and a newline are written, exactly that line
    and its newline are consumed, the result is what [parseResponse]
    makes of the line, and the environment, the variables, the settings
    and the context are untouched; only the debug output grows, and
    only in debug mode. *)
Theorem X5_execute_one_line
    (command line rest : gostring) (s : AgiSession) :
  broken (writer s) = false → LF ∉ line →
  reader s = line ++ nl ++ rest →
  execute command s
  = (parseResponse line, commands.afterCommand command line rest s).
Proof. apply execute_line. Qed.

Lemma X5_witness :
  execute "ANSWER" (workerSession (mkConn ("200 0 ok" ++ nl ++ "200 1 x" ++ nl)))
  = (parseResponse "200 0 ok",
     commands.afterCommand "ANSWER" "200 0 ok" ("200 1 x" ++ nl)
       (workerSession (mkConn ("200 0 ok" ++ nl ++ "200 1 x" ++ nl)))).
Proof.
  apply (X5_execute_one_line "ANSWER" "200 0 ok" ("200 1 x" ++ nl)).
  - reflexivity.
  - apply (bool_decide_unpack _). vm_compute. exact I.
  - reflexivity.
Defined.

(** X6: two commands in a row read two reply lines in order, also when
    the first reply is an error (but not the bare marker, on which the
    first command panics): each result comes from its own line, both
    commands are on the wire, and what follows the second line is left
    unread. *)
Theorem X6_execute_in_sequence
    (c1 c2 l1 l2 rest : gostring) (s : AgiSession) :
  broken (writer s) = false → LF ∉ l1 → LF ∉ l2 →
  reader s = l1 ++ nl ++ l2 ++ nl ++ rest →
  strings.TrimSpace l1 ≠ "200" →
  let r1 := execute c1 s in
  let r2 := execute c2 (snd r1) in
  fst r1 = parseResponse l1
  ∧ fst r2 = parseResponse l2
  ∧ written (writer (snd r2)) = written (writer s) ++ c1 ++ nl ++ c2 ++ nl
  ∧ reader (snd r2) = rest.
Proof.
  intros Hw H1 H2 Hr _ r1 r2. subst r1 r2.
  rewrite (execute_line c1 l1 (l2 ++ nl ++ rest) s Hw H1 Hr). cbn [fst snd].
  rewrite (execute_line c2 l2 rest
             (commands.afterCommand c1 l1 (l2 ++ nl ++ rest) s)) by done.
  cbn. by rewrite <- !app_assoc.
Qed.

Lemma X6_witness :
  fst (execute "NOOP"
         (workerSession (mkConn ("510 bad" ++ nl ++ "200 1 x" ++ nl))))
  = parseResponse "510 bad"
  ∧ fst (execute "ANSWER"
           (snd (execute "NOOP"
                   (workerSession
                      (mkConn ("510 bad" ++ nl ++ "200 1 x" ++ nl))))))
    = parseResponse "200 1 x"
  ∧ written (writer (snd (execute "ANSWER"
           (snd (execute "NOOP"
                   (workerSession
                      (mkConn ("510 bad" ++ nl ++ "200 1 x" ++ nl))))))))
    = [] ++ "NOOP" ++ nl ++ "ANSWER" ++ nl
  ∧ reader (snd (execute "ANSWER"
           (snd (execute "NOOP"
                   (workerSession
                      (mkConn ("510 bad" ++ nl ++ "200 1 x" ++ nl)))))))
    = [].
Proof.
  apply (X6_execute_in_sequence "NOOP" "ANSWER" "510 bad" "200 1 x" []
           (workerSession (mkConn ("510 bad" ++ nl ++ "200 1 x" ++ nl)))).
  - reflexivity.
  - apply (bool_decide_unpack _). vm_compute. exact I.
  - apply (bool_decide_unpack _). vm_compute. exact I.
  - reflexivity.
  - apply (bool_decide_unpack _). vm_compute. exact I.
Defined.

(** X7: debug mode is transparent.  With [SetDebug true] a command
    returns the same result, reads the same bytes, writes the same bytes
    and leaves the same environment as with [SetDebug false]; the two
    runs differ only in what went to the standard error stream, and
    without debug mode nothing goes there. *)
Theorem X7_debug_mode_is_transparent (command : gostring) (s : AgiSession) :
  let a := execute command (SetDebug true s) in
  let b := execute command (SetDebug false s) in
  fst a = fst b
  ∧ reader (snd a) = reader (snd b)
  ∧ writer (snd a) = writer (snd b)
  ∧ env (snd a) = env (snd b)
  ∧ ctx (snd a) = ctx (snd b)
  ∧ stderr (snd b) = stderr s
  ∧ stderr s `prefix_of` stderr (snd a).
Proof.
  unfold execute, SetDebug, Fprint. destruct s as [r w e v d t c f err].
  cbn [debugMode set_debugMode eprint writer reader env variables timeout
       ctx cancelFunc stderr set_writer set_reader].
  destruct (broken w).
  - cbn. repeat split. by apply prefix_app_r.
  - cbn [debugMode set_debugMode eprint writer reader env variables timeout
         ctx cancelFunc stderr set_writer set_reader].
    destruct (bufio.ReadString LF r) as [[line rest] [e'|]]; cbn.
    + repeat split. by apply prefix_app_r.
    + repeat split. rewrite <- app_assoc. by apply prefix_app_r.
Qed.

(** X8: the two ways a command fails before any reply is parsed.  On a
    writer that refuses the write the error wraps the writer's, and
    nothing is read.  On a working writer with no whole line pending the
    command is on the wire, the pending bytes are consumed and the
    error wraps the end of the stream. *)
Theorem X8_execute_io_errors (command : gostring) (s : AgiSession) :
  (broken (writer s) = true →
     fst (execute command s) = Err (Wrap ErrClosed "failed to send command")
     ∧ reader (snd (execute command s)) = reader s
     ∧ writer (snd (execute command s)) = writer s)
  ∧ (broken (writer s) = false → LF ∉ reader s →
     fst (execute command s) = Err (Wrap EOF "failed to read response")
     ∧ reader (snd (execute command s)) = []
     ∧ written (writer (snd (execute command s)))
       = written (writer s) ++ command ++ nl).
Proof.
  unfold execute, Fprint. destruct s as [r w e v d t c f err].
  split.
  - intros Hw. cbn in Hw. destruct d; cbn; rewrite Hw; done.
  - intros Hw Hr. cbn in Hw, Hr.
    destruct d; cbn; rewrite Hw; cbn; rewrite (ReadString_absent _ _ Hr);
      done.
Qed.

Lemma X8_witness :
  (fst (execute "ANSWER"
          (set_writer (mkWriter [] true) (workerSession (mkConn "200 0 ok"))))
   = Err (Wrap ErrClosed "failed to send command")
   ∧ reader (snd (execute "ANSWER"
          (set_writer (mkWriter [] true) (workerSession (mkConn "200 0 ok")))))
     = "200 0 ok"
   ∧ writer (snd (execute "ANSWER"
          (set_writer (mkWriter [] true) (workerSession (mkConn "200 0 ok")))))
     = mkWriter [] true)
  ∧ (fst (execute "ANSWER" (workerSession (mkConn "200 0 ok")))
     = Err (Wrap EOF "failed to read response")
     ∧ reader (snd (execute "ANSWER" (workerSession (mkConn "200 0 ok")))) = []
     ∧ written (writer (snd (execute "ANSWER"
                               (workerSession (mkConn "200 0 ok")))))
       = [] ++ "ANSWER" ++ nl).
Proof.
  split.
  - apply (proj1 (X8_execute_io_errors "ANSWER"
             (set_writer (mkWriter [] true)
                (workerSession (mkConn "200 0 ok"))))).
    reflexivity.
  - apply (proj2 (X8_execute_io_errors "ANSWER"
                    (workerSession (mkConn "200 0 ok")))).
    + reflexivity.
    + apply (bool_decide_unpack _). vm_compute. exact I.
Defined.

(** X9: what the convenience operations make of an accepted reply with
    result [n] and data [rest].  [GetOption], [SayNumber], [SayDigits]
    and [ReceiveChar] return the empty string for result -1 and the
    result as a rune otherwise; [DatabaseGet] returns the empty string
    for result 0 and the data otherwise; [ChannelStatus] returns the
    result; [GetData] and [GetVariable] return the data; [Answer] and
    [Hangup] succeed. *)
Theorem X9_operations_on_accepted_reply
    (line more : gostring) (c : ascii) (tok rest : gostring) (n : Z)
    (s : AgiSession) :
  broken (writer s) = false → LF ∉ line →
  reader s = line ++ nl ++ more →
  strings.TrimSpace line = "200" ++ c :: tok ++ " " ++ rest →
  strconv.Atoi tok = inr n →
  let key := if bool_decide (n = (-1)%Z) then [] else runeString n in
  (∀ f e t, fst (GetOption f e t s) = Ok key)
  ∧ (∀ m e, fst (SayNumber m e s) = Ok key)
  ∧ (∀ d e, fst (SayDigits d e s) = Ok key)
  ∧ (∀ t, fst (ReceiveChar t s) = Ok key)
  ∧ (∀ family k,
       fst (commands.DatabaseGet family k s)
       = Ok (if bool_decide (n = 0%Z) then [] else strings.TrimSpace rest))
  ∧ fst (commands.ChannelStatus s) = Ok n
  ∧ (∀ f t m, fst (GetData f t m s) = Ok (strings.TrimSpace rest))
  ∧ (∀ name, fst (commands.GetVariable name s) = Ok (strings.TrimSpace rest))
  ∧ fst (commands.Answer s) = Ok ()
  ∧ fst (commands.Hangup s) = Ok ().
Proof.
  intros Hw Hlf Hr Ht Hn key.
  pose proof (parseResponse_accepts _ _ _ _ _ Ht Hn) as Hp.
  assert (∀ command,
            execute command s
            = (Ok (mkResponse 1 n (strings.TrimSpace rest)
                     (strings.TrimSpace line) 0 [] false),
               commands.afterCommand command line more s)) as He.
  { intros command. by rewrite (execute_line _ _ _ _ Hw Hlf Hr), Hp. }
  unfold GetOption, SayNumber, SayDigits, ReceiveChar, commands.DatabaseGet,
    commands.ChannelStatus, GetData, commands.GetVariable, commands.Answer,
    commands.Hangup.
  repeat split; intros; rewrite He; cbn [Result Data Status fst negb];
    try done; subst key; by case_bool_decide.
Qed.

Lemma X9_witness :
  (∀ f e t,
     fst (GetOption f e t (workerSession (mkConn ("200 49 one" ++ nl))))
     = Ok ("1" : gostring))
  ∧ (∀ m e,
       fst (SayNumber m e (workerSession (mkConn ("200 49 one" ++ nl))))
       = Ok ("1" : gostring))
  ∧ (∀ d e,
       fst (SayDigits d e (workerSession (mkConn ("200 49 one" ++ nl))))
       = Ok ("1" : gostring))
  ∧ (∀ t, fst (ReceiveChar t (workerSession (mkConn ("200 49 one" ++ nl))))
          = Ok ("1" : gostring))
  ∧ (∀ family k,
       fst (commands.DatabaseGet family k
              (workerSession (mkConn ("200 49 one" ++ nl))))
       = Ok ("one" : gostring))
  ∧ fst (commands.ChannelStatus (workerSession (mkConn ("200 49 one" ++ nl))))
    = Ok 49%Z
  ∧ (∀ f t m,
       fst (GetData f t m (workerSession (mkConn ("200 49 one" ++ nl))))
       = Ok ("one" : gostring))
  ∧ (∀ name,
       fst (commands.GetVariable name
              (workerSession (mkConn ("200 49 one" ++ nl))))
       = Ok ("one" : gostring))
  ∧ fst (commands.Answer (workerSession (mkConn ("200 49 one" ++ nl))))
    = Ok ()
  ∧ fst (commands.Hangup (workerSession (mkConn ("200 49 one" ++ nl))))
    = Ok ().
Proof.
  apply (X9_operations_on_accepted_reply "200 49 one" [] " "%char "49" "one" 49
           (workerSession (mkConn ("200 49 one" ++ nl)))).
  - reflexivity.
  - apply (bool_decide_unpack _). vm_compute. exact I.
  - reflexivity.
  - vm_compute. reflexivity.
  - vm_compute. reflexivity.
Defined.


(** ** Sessions *)

Section sessions.

Import wire.

Lemma NewWithContext_Ok stdin parent s :
  NewWithContext stdin parent = Ok s →
  cancelFunc s = Some CancelSessionCtx ∧ ctx s = Some (WithCancel parent)
  ∧ writer s = mkWriter [] false.
Proof.
  unfold NewWithContext, readEnvironment.
  match goal with |- context [readEnvLoop ?n ?s0] =>
    pose proof (readEnvLoop_frame n s0) as (Hc & Hx & Hw);
    destruct (readEnvLoop n s0) as [[[]|e|p] s'] eqn:E
  end; intros [= <-]. done.
Qed.

Lemma readEnvironment_truncated kvs tail s :
  Forall wellFormed kvs → LF ∉ tail →
  reader s = headerLines kvs ++ tail →
  readEnvironment s
  = (Err (Wrap EOF "failed to read environment line"),
     set_env (blockEnv kvs (env s)) (set_reader [] s)).
Proof.
  intros Hwf Ht Hr. unfold readEnvironment.
  replace (S (length (reader s)))
    with (length kvs + S (length (reader s) - length kvs)).
  - rewrite (readEnvLoop_headerLines _ _ _ _ Hwf Hr).
    cbn [readEnvLoop]. cbn [reader set_env set_reader].
    rewrite (ReadString_absent _ _ Ht). done.
  - rewrite Hr, !length_app. pose proof (headerLines_length kvs). lia.
Qed.

End sessions.

(** X10: the standalone constructor on a well-formed header block closed
    by a blank line.  [NewWithContext] returns a session whose [GetEnv]
    yields, for the trimmed key of a line, the trimmed value of the last
    line with that key, and the empty string for a key of no line; the
    bytes after the blank line are left unread, the context is a child
    of the caller's that is not yet cancelled by the session, and the
    cancel function is set. *)
Theorem X10_NewWithContext_valid_block
    (kvs : list (gostring * gostring)) (blank rest : gostring)
    (parent : Context) :
  Forall wire.wellFormed kvs →
  LF ∉ blank → strings.TrimSpace blank = [] →
  ∃ s, NewWithContext (wire.headerBlock kvs blank ++ rest) parent = Ok s
    ∧ (∀ i kv, kvs !! i = Some kv →
         (∀ j kv', i < j → kvs !! j = Some kv' →
            strings.TrimSpace (fst kv') ≠ strings.TrimSpace (fst kv)) →
         GetEnv s (strings.TrimSpace (fst kv)) = strings.TrimSpace (snd kv))
    ∧ (∀ key : gostring,
         (∀ kv, kv ∈ kvs → strings.TrimSpace (fst kv) ≠ key) →
         GetEnv s key = [])
    ∧ reader s = rest
    ∧ ctx s = Some (WithCancel parent)
    ∧ cancelFunc s = Some CancelSessionCtx
    ∧ timeout s = (30 * Second)%Z.
Proof.
  intros Hwf Hb Ht. unfold NewWithContext.
  match goal with |- context [readEnvironment ?s0] =>
    rewrite (readEnvironment_block kvs blank rest s0 Hwf Hb Ht eq_refl)
  end.
  eexists. split; [reflexivity|]. cbn [env reader ctx cancelFunc timeout
    set_env set_reader]. unfold GetEnv. cbn [env set_env].
  repeat split.
  - intros i kv Hi Hlast. by rewrite (blockEnv_lookup_last _ _ _ _ Hi Hlast).
  - intros key Hk. by rewrite (blockEnv_lookup_other _ _ _ Hk).
Qed.

Lemma X10_witness :
  ∃ s, NewWithContext
         (wire.headerBlock [("agi_a" : gostring, " 1" : gostring);
                            ("agi_b" : gostring, " x " : gostring);
                            ("agi_a" : gostring, " 2" : gostring)] []
          ++ "200 0 ok") Background
       = Ok s
    ∧ GetEnv s "agi_a" = "2" ∧ GetEnv s "agi_b" = "x"
    ∧ GetEnv s "agi_c" = [] ∧ reader s = "200 0 ok".
Proof.
  destruct (X10_NewWithContext_valid_block
              [("agi_a" : gostring, " 1" : gostring);
               ("agi_b" : gostring, " x " : gostring);
               ("agi_a" : gostring, " 2" : gostring)] [] "200 0 ok"
              Background)
    as (s & Hs & Hlast & Hnone & Hr & _).
  - repeat first [apply Forall_nil | apply Forall_cons; split | split];
      apply (bool_decide_unpack _); vm_compute; exact I.
  - apply (bool_decide_unpack _). vm_compute. exact I.
  - vm_compute. reflexivity.
  - exists s. split; [exact Hs|]. split; [|split; [|split]].
    + apply (Hlast 2 ("agi_a" : gostring, " 2" : gostring) eq_refl).
      intros j kv' Hj Hkv. apply lookup_lt_Some in Hkv. simpl in Hkv. lia.
    + apply (Hlast 1 ("agi_b" : gostring, " x " : gostring) eq_refl).
      intros j kv' Hj Hkv.
      destruct j as [|[|[|j]]]; [lia | lia | | done].
      injection Hkv as <-. apply (bool_decide_unpack _). vm_compute. exact I.
    + apply Hnone. intros kv Hkv.
      repeat (apply elem_of_cons in Hkv as [->|Hkv];
              [apply (bool_decide_unpack _); vm_compute; exact I|]).
      by apply elem_of_nil in Hkv.
    + exact Hr.
Defined.

(** X11: [Close] on a session of the standalone constructor succeeds and
    cancels the session's context; it leaves the reader, the writer and
    the environment as they were, and a second [Close] succeeds and
    changes nothing. *)
Theorem X11_Close_standalone
    (stdin : gostring) (parent : Context) (s : AgiSession) :
  NewWithContext stdin parent = Ok s →
  ∃ s1, Close s = (Ok (), s1)
    ∧ ctx s1 = Some (cancelCtx parent true)
    ∧ Done (cancelCtx parent true) = true
    ∧ reader s1 = reader s ∧ writer s1 = writer s ∧ env s1 = env s
    ∧ Close s1 = (Ok (), s1).
Proof.
  intros H. apply NewWithContext_Ok in H as (Hf & Hc & _).
  unfold Close. rewrite Hf, Hc. eexists. split; [reflexivity|].
  cbn. rewrite Hf. done.
Qed.

Lemma X11_witness :
  ∃ s1, Close (mkSession [] (mkWriter [] false) ∅ ∅ false (30 * Second)
                 (Some (WithCancel Background)) (Some CancelSessionCtx) [])
        = (Ok (), s1)
    ∧ ctx s1 = Some (cancelCtx Background true)
    ∧ Done (cancelCtx Background true) = true
    ∧ reader s1 = [] ∧ writer s1 = mkWriter [] false ∧ env s1 = ∅
    ∧ Close s1 = (Ok (), s1).
Proof.
  apply (X11_Close_standalone nl Background
           (mkSession [] (mkWriter [] false) ∅ ∅ false (30 * Second)
              (Some (WithCancel Background)) (Some CancelSessionCtx) [])).
  vm_compute. reflexivity.
Defined.

(** X12: a header that stops before its blank line.  When the stream
    ends after well-formed header lines, with or without a last line
    that lacks its newline, [readEnvironment] fails with the wrapped end
    of the stream, [NewWithContext] fails with that error wrapped again,
    and the connection worker logs it and never calls the handler. *)
Theorem X12_truncated_header
    (kvs : list (gostring * gostring)) (tail : gostring)
    (handler : Handler) (serverCtx parent : Context) :
  Forall wire.wellFormed kvs → LF ∉ tail →
  let input := wire.headerLines kvs ++ tail in
  let err := Wrap EOF "failed to read environment line" in
  (∀ s, reader s = input → fst (readEnvironment s) = Err err)
  ∧ NewWithContext input parent
    = Err (Wrap err "failed to read AGI environment")
  ∧ handleConnection handler serverCtx (mkConn input)
    = ([SetDeadline (30 * Second);
        Printf "Failed to read environment: %v" err;
        ConnClose; WgDone], None).
Proof.
  intros Hwf Ht input err. split; [|split].
  - intros s Hr. by rewrite (readEnvironment_truncated kvs tail s Hwf Ht Hr).
  - unfold NewWithContext.
    match goal with |- context [readEnvironment ?s0] =>
      by rewrite (readEnvironment_truncated kvs tail s0 Hwf Ht eq_refl)
    end.
  - unfold handleConnection.
    match goal with |- context [readEnvironment ?s0] =>
      by rewrite (readEnvironment_truncated kvs tail s0 Hwf Ht eq_refl)
    end.
Qed.

Lemma X12_witness :
  (∀ s, reader s = "agi_network: yes" ++ nl ++ "agi_request"
        → fst (readEnvironment s)
          = Err (Wrap EOF "failed to read environment line"))
  ∧ NewWithContext ("agi_network: yes" ++ nl ++ "agi_request") Background
    = Err (Wrap (Wrap EOF "failed to read environment line")
             "failed to read AGI environment")
  ∧ handleConnection (λ _ s, (Ok (), s)) Background
      (mkConn ("agi_network: yes" ++ nl ++ "agi_request"))
    = ([SetDeadline (30 * Second);
        Printf "Failed to read environment: %v"
          (Wrap EOF "failed to read environment line");
        ConnClose; WgDone], None).
Proof.
  apply (X12_truncated_header [("agi_network" : gostring, " yes" : gostring)]
           "agi_request" (λ _ s, (Ok (), s)) Background Background).
  - repeat first [apply Forall_nil | apply Forall_cons; split | split];
      apply (bool_decide_unpack _); vm_compute; exact I.
  - apply (bool_decide_unpack _). vm_compute. exact I.
Defined.

(** X13: the connection worker on a well-formed header block.  The
    handler is called once, with a context that is a child of the
    server's with the session's 30 second timeout and with a session
    that holds the block's environment and, as unread input, the bytes
    after the blank line; then the context is cancelled, the connection
    closed and the wait group released, in that order, whether the
    handler returns, fails or panics; a handler error is logged and a
    panic is passed on. *)
Theorem X13_worker_on_valid_block
    (kvs : list (gostring * gostring)) (blank rest : gostring)
    (handler : Handler) (serverCtx : Context) :
  Forall wire.wellFormed kvs →
  LF ∉ blank → strings.TrimSpace blank = [] →
  let conn := mkConn (wire.headerBlock kvs blank ++ rest) in
  let session :=
    set_env (wire.blockEnv kvs ∅) (set_reader rest (workerSession conn)) in
  let ctx := WithTimeout serverCtx (30 * Second) in
  handleConnection handler serverCtx conn
  = ([SetDeadline (30 * Second); Handle ctx session]
     ++ match fst (handler ctx session) with
        | Err err => [Printf "Handler error: %v" err]
        | _ => []
        end
     ++ [CtxCancel; ConnClose; WgDone],
     match fst (handler ctx session) with
     | Panic p => Some p
     | _ => None
     end).
Proof.
  intros Hwf Hb Ht conn session ctx. unfold handleConnection.
  rewrite (readEnvironment_block kvs blank rest (workerSession conn)
             Hwf Hb Ht eq_refl).
  change (set_env (wire.blockEnv kvs (env (workerSession conn)))
            (set_reader rest (workerSession conn))) with session.
  change (WithTimeout serverCtx (timeout session)) with ctx.
  by destruct (handler ctx session) as [[[]|e|p] s'].
Qed.

Lemma X13_witness :
  handleConnection (λ _ s, (Err ErrClosed, s)) Background
    (mkConn (wire.headerBlock [("agi_network" : gostring, " yes" : gostring)]
               [] ++ "200 0 ok"))
  = ([SetDeadline (30 * Second);
      Handle (WithTimeout Background (30 * Second))
        (set_env (wire.blockEnv [("agi_network" : gostring,
                                  " yes" : gostring)] ∅)
           (set_reader "200 0 ok"
              (workerSession
                 (mkConn (wire.headerBlock
                            [("agi_network" : gostring, " yes" : gostring)]
                            [] ++ "200 0 ok")))))]
     ++ [Printf "Handler error: %v" ErrClosed]
     ++ [CtxCancel; ConnClose; WgDone], None).
Proof.
  apply (X13_worker_on_valid_block
           [("agi_network" : gostring, " yes" : gostring)] [] "200 0 ok"
           (λ _ s, (Err ErrClosed, s)) Background).
  - repeat first [apply Forall_nil | apply Forall_cons; split | split];
      apply (bool_decide_unpack _); vm_compute; exact I.
  - apply (bool_decide_unpack _). vm_compute. exact I.
  - vm_compute. reflexivity.
Defined.


(** ** The result codes *)

(** X14: [GetResultCode] sorts the results into three classes: a result
    of zero or more is [Success], -1 is [Hangup], anything below is
    [Error]; the code [Timeout] is never returned. *)
Theorem X14_GetResultCode_classes (result : Z) :
  (commands.GetResultCode result = commands.code.Success ↔ (0 ≤ result)%Z)
  ∧ (commands.GetResultCode result = commands.code.Hangup
     ↔ result = (-1)%Z)
  ∧ (commands.GetResultCode result = commands.code.Error ↔ (result < -1)%Z)
  ∧ commands.GetResultCode result ≠ commands.code.Timeout.
Proof.
  unfold commands.GetResultCode.
  repeat case_bool_decide; repeat split; (done || lia).
Qed.


(** ** The server: accounting, the result of Serve, late workers *)

Section server_more.

Import server.


Lemma late_workers ls s s' :
  closed s = true → run ls s = Some s' →
  closed s' = true
  ∧ length (workers s') + match serve s' with Accepted | Added => 1 | _ => 0 end
    ≤ length (workers s) + match serve s with Accepted | Added => 1 | _ => 0 end.
Proof.
  revert s. induction ls as [|l ls IH]; intros s Hcl Hrun; simpl in Hrun.
  - by simplify_eq.
  - destruct (exec l s) as [s1|] eqn:Hexec; [|done].
    assert (closed s1 = true
            ∧ length (workers s1)
              + match serve s1 with Accepted | Added => 1 | _ => 0 end
              ≤ length (workers s)
                + match serve s with Accepted | Added => 1 | _ => 0 end)
      as [Hcl1 Hle].
    { destruct s as [c cl n sv st ws]. simpl in Hcl. subst cl.
      destruct l, sv, st; simpl in Hexec;
        repeat match type of Hexec with
               | context [ws !! ?i] => destruct (ws !! i) as [[]|] eqn:Hi
               | context [match n with _ => _ end] => destruct n
               end;
        simplify_eq/=; rewrite ?length_app, ?length_insert; simpl;
        split; (done || lia). }
    destruct (IH s1 Hcl1 Hrun) as [Hcl' Hle']. split; [done|lia].
Qed.

End server_more.

(** X15: the accounting of the wait group.  In every state of every
    execution of the server the counter is the number of workers in
    flight, plus one between [Add] and the [go] statement; so the
    deferred [Done] of a worker in flight never finds the counter at
    zero, and [Wait] can return only when no worker is in flight. *)
Theorem X15_wait_group_accounting (ls : list server.label) (s : server.state) :
  server.run ls server.init = Some s →
  server.wg s
  = server.inFlight s
    + match server.serve s with server.Added => 1 | _ => 0 end
  ∧ (∀ i, server.workers s !! i = Some server.Running →
          is_Some (server.exec (server.WorkerExit i) s))
  ∧ (is_Some (server.exec server.StopWaitReturn s) → server.inFlight s = 0).
Proof.
  intros Hrun. assert (server.reachable s) as Hr by (by exists ls).
  destruct (reachable_inv s Hr) as (_ & _ & Hwg).
  split; [exact Hwg|]. split.
  - intros i. by apply worker_can_exit.
  - intros [s' Hs']. unfold server.inFlight. destruct s as [c cl n sv st ws].
    simpl in *. destruct sv, st, n; simplify_eq/=; lia.
Qed.

Lemma X15_witness :
  server.wg (server.mkState false false 2 server.Added server.NotCalled
               [server.Running])
  = server.inFlight (server.mkState false false 2 server.Added
                       server.NotCalled [server.Running]) + 1
  ∧ (∀ i, [server.Running] !! i = Some server.Running →
          is_Some (server.exec (server.WorkerExit i)
                     (server.mkState false false 2 server.Added
                        server.NotCalled [server.Running])))
  ∧ (is_Some (server.exec server.StopWaitReturn
                (server.mkState false false 2 server.Added server.NotCalled
                   [server.Running]))
     → server.inFlight (server.mkState false false 2 server.Added
                          server.NotCalled [server.Running]) = 0).
Proof.
  apply (X15_wait_group_accounting
           [server.AcceptOk; server.WgAdd; server.Go; server.AcceptOk;
            server.WgAdd]).
  vm_compute. reflexivity.
Defined.



(** X17: workers after [Stop].  In an execution that goes on after
    [Stop] has returned, [Serve] starts at most one more worker, the one
    whose connection it had accepted before the listener was closed;
    and there is an execution in which it does start one, so that a
    worker is in flight although [Stop] has returned. *)
Theorem X17_late_worker
    (ls0 ls : list server.label) (s s' : server.state) :
  server.run ls0 server.init = Some s →
  server.stop s = server.StopReturned →
  server.run ls s = Some s' →
  length (server.workers s') ≤ S (length (server.workers s))
  ∧ ∃ lt t, server.run lt server.init = Some t
      ∧ server.stop t = server.StopReturned ∧ server.inFlight t = 1.
Proof.
  intros Hrun0 Hstop Hrun. split.
  - assert (server.reachable s) as Hr by (by exists ls0).
    destruct (reachable_inv s Hr) as (Hcl & _ & _).
    assert (server.closed s = true) as Hc by (apply Hcl; by right).
    destruct (late_workers ls s s' Hc Hrun) as [_ Hle].
    destruct (server.serve s), (server.serve s'); lia.
  - exists [server.AcceptOk; server.StopCall; server.StopCancel;
            server.StopClose; server.StopWaitReturn; server.WgAdd; server.Go].
    eexists. split; [vm_compute; reflexivity|]. done.
Qed.

Lemma X17_witness :
  length (server.workers
            (server.mkState true true 1 server.Accepting server.StopReturned
               [server.Running]))
  ≤ S (length (server.workers
                 (server.mkState true true 0 server.Accepted
                    server.StopReturned [])))
  ∧ ∃ lt t, server.run lt server.init = Some t
      ∧ server.stop t = server.StopReturned ∧ server.inFlight t = 1.
Proof.
  apply (X17_late_worker
           [server.AcceptOk; server.StopCall; server.StopCancel;
            server.StopClose; server.StopWaitReturn]
           [server.WgAdd; server.Go]
           (server.mkState true true 0 server.Accepted server.StopReturned [])
           (server.mkState true true 1 server.Accepting server.StopReturned
              [server.Running])).
  - vm_compute. reflexivity.
  - reflexivity.
  - vm_compute. reflexivity.
Defined.


(** ** Splitting and joining command lines *)

Section commands_split.

Import util.

Implicit Types (p cur : gostring) (ps acc : list gostring) (b c : ascii).

Lemma code_inj b c : utf8dec.code b = utf8dec.code c → b = c.
Proof.
  unfold utf8dec.code. intros H. apply N2Z.inj in H.
  rewrite <- (ascii_N_embedding b), <- (ascii_N_embedding c). by rewrite H.
Qed.

Lemma EncodeRune_code b :
  (utf8dec.code b < 128)%Z → utf8.EncodeRune (utf8dec.code b) = [b].
Proof.
  destruct b as [b0 b1 b2 b3 b4 b5 b6 b7].
  destruct b0, b1, b2, b3, b4, b5, b6, b7; intros H;
    first [ by vm_compute in H | vm_compute; reflexivity ].
Qed.

Lemma Range_ascii p :
  Forall (λ b, (utf8dec.code b < 128)%Z) p →
  utf8dec.Range p = utf8dec.code <$> p.
Proof.
  unfold utf8dec.Range. induction 1 as [|b p Hb _ IH]; [done|].
  cbn [utf8dec.rangeFrom utf8dec.DecodeRune fmap list_fmap].
  apply Z.ltb_lt in Hb. change 0x80%Z with 128%Z. rewrite Hb.
  cbn [Nat.sub]. by rewrite IH.
Qed.

Lemma EscapeString_nil : EscapeString [] = [].
Proof. reflexivity. Qed.

Lemma EscapeString_BS p : EscapeString (BS :: p) = BS :: BS :: EscapeString p.
Proof.
  unfold EscapeString. rewrite ReplaceAll_cons_1.
  rewrite bool_decide_eq_true_2 by done. cbn [app].
  rewrite !ReplaceAll_cons_1. by rewrite bool_decide_eq_false_2 by done.
Qed.

Lemma EscapeString_DQ p : EscapeString (DQ :: p) = BS :: DQ :: EscapeString p.
Proof.
  unfold EscapeString. rewrite ReplaceAll_cons_1.
  rewrite bool_decide_eq_false_2 by done.
  rewrite ReplaceAll_cons_1. by rewrite bool_decide_eq_true_2 by done.
Qed.

Lemma EscapeString_other c p :
  c ≠ BS → c ≠ DQ → EscapeString (c :: p) = c :: EscapeString p.
Proof.
  intros H1 H2. unfold EscapeString. rewrite ReplaceAll_cons_1.
  rewrite bool_decide_eq_false_2 by done.
  rewrite ReplaceAll_cons_1. by rewrite bool_decide_eq_false_2 by done.
Qed.

Lemma EscapeString_ascii p :
  Forall (λ b, (utf8dec.code b < 128)%Z) p →
  Forall (λ b, (utf8dec.code b < 128)%Z) (EscapeString p).
Proof.
  induction 1 as [|c p Hc _ IH]; [by rewrite EscapeString_nil|].
  destruct (decide (c = BS)) as [->|H1].
  { rewrite EscapeString_BS. by repeat apply Forall_cons_2. }
  destruct (decide (c = DQ)) as [->|H2].
  { rewrite EscapeString_DQ. repeat apply Forall_cons_2; try done. }
  rewrite EscapeString_other by done. by apply Forall_cons_2.
Qed.

(** The loop body on an ASCII byte, case by case. *)
Lemma splitRune_escaped ps cur q c :
  (utf8dec.code c < 128)%Z →
  splitRune (mkSplitter ps cur q true) (utf8dec.code c)
  = mkSplitter ps (cur ++ [c]) q false.
Proof. intros Hc. unfold splitRune. cbn. by rewrite EncodeRune_code. Qed.

Lemma splitRune_BS ps cur q :
  splitRune (mkSplitter ps cur q false) (utf8dec.code BS)
  = mkSplitter ps cur q true.
Proof. reflexivity. Qed.

Lemma splitRune_DQ ps cur q :
  splitRune (mkSplitter ps cur q false) (utf8dec.code DQ)
  = mkSplitter ps cur (negb q) false.
Proof. reflexivity. Qed.

Lemma splitRune_write ps cur q c :
  (utf8dec.code c < 128)%Z → c ≠ BS → c ≠ DQ → (c = " "%char → q = true) →
  splitRune (mkSplitter ps cur q false) (utf8dec.code c)
  = mkSplitter ps (cur ++ [c]) q false.
Proof.
  intros Hc H1 H2 H3. unfold splitRune. cbn.
  rewrite EncodeRune_code by done.
  assert ((utf8dec.code c =? 92)%Z = false) as ->.
  { apply Z.eqb_neq. intros H. apply H1, code_inj. by rewrite H. }
  assert ((utf8dec.code c =? 34)%Z = false) as ->.
  { apply Z.eqb_neq. intros H. apply H2, code_inj. by rewrite H. }
  destruct (utf8dec.code c =? 32)%Z eqn:E; [|done].
  apply Z.eqb_eq in E. rewrite H3; [done|]. apply code_inj. by rewrite E.
Qed.

Lemma splitRune_space ps cur :
  splitRune (mkSplitter ps cur false false) (utf8dec.code " ")
  = if 0 <? length cur then mkSplitter (ps ++ [cur]) [] false false
    else mkSplitter ps cur false false.
Proof. reflexivity. Qed.

(** Inside quotes, the escaped form of [p] appends [p]. *)
Lemma feed_escaped p ps cur :
  Forall (λ b, (utf8dec.code b < 128)%Z) p →
  foldl splitRune (mkSplitter ps cur true false)
        (utf8dec.code <$> EscapeString p)
  = mkSplitter ps (cur ++ p) true false.
Proof.
  intros Hp. revert cur. induction Hp as [|c p Hc _ IH]; intros cur.
  - rewrite EscapeString_nil. cbn. by rewrite app_nil_r.
  - destruct (decide (c = BS)) as [->|H1].
    { rewrite EscapeString_BS. cbn [fmap list_fmap foldl].
      rewrite splitRune_BS, splitRune_escaped by done.
      rewrite IH. by rewrite <- app_assoc. }
    destruct (decide (c = DQ)) as [->|H2].
    { rewrite EscapeString_DQ. cbn [fmap list_fmap foldl].
      rewrite splitRune_BS, splitRune_escaped by done.
      rewrite IH. by rewrite <- app_assoc. }
    rewrite EscapeString_other by done. cbn [fmap list_fmap foldl].
    rewrite splitRune_write by done.
    rewrite IH. by rewrite <- app_assoc.
Qed.

(** Outside quotes, a run without space, quote or backslash appends itself. *)
Lemma feed_plain p ps cur :
  Forall (λ b, (utf8dec.code b < 128)%Z) p →
  BS ∉ p → DQ ∉ p → " "%char ∉ p →
  foldl splitRune (mkSplitter ps cur false false) (utf8dec.code <$> p)
  = mkSplitter ps (cur ++ p) false false.
Proof.
  intros Hp. revert cur. induction Hp as [|c p Hc _ IH]; intros cur H1 H2 H3.
  - cbn. by rewrite app_nil_r.
  - apply not_elem_of_cons in H1 as [? ?], H2 as [? ?], H3 as [? ?].
    cbn [fmap list_fmap foldl]. rewrite splitRune_write by done.
    rewrite IH by done. by rewrite <- app_assoc.
Qed.

Lemma ContainsAny_false p (chars : gostring) :
  strings2.ContainsAny p chars = false → ∀ c, c ∈ chars → c ∉ p.
Proof.
  unfold strings2.ContainsAny. induction p as [|b p IH]; intros H c Hc.
  - apply not_elem_of_nil.
  - cbn in H. apply orb_false_iff in H as [Hb H].
    apply bool_decide_eq_false in Hb.
    apply not_elem_of_cons. split; [by intros ->|]. by apply IH.
Qed.

Lemma quoteArg_ascii p :
  Forall (λ b, (utf8dec.code b < 128)%Z) p →
  Forall (λ b, (utf8dec.code b < 128)%Z) (quoteArg p).
Proof.
  intros Hp. unfold quoteArg. destruct (strings2.ContainsAny _ _); [|done].
  apply Forall_app. split; [by apply Forall_singleton|].
  apply Forall_app. split; [by apply EscapeString_ascii|].
  by apply Forall_singleton.
Qed.

Lemma feed_quoteArg p ps cur :
  Forall (λ b, (utf8dec.code b < 128)%Z) p →
  (BS ∈ p → " "%char ∈ p ∨ DQ ∈ p) →
  foldl splitRune (mkSplitter ps cur false false) (utf8dec.code <$> quoteArg p)
  = mkSplitter ps (cur ++ p) false false.
Proof.
  intros Hp Hbs. unfold quoteArg.
  destruct (strings2.ContainsAny p _) eqn:E.
  - rewrite !fmap_app, !foldl_app. cbn [fmap list_fmap foldl].
    rewrite splitRune_DQ. cbn [negb]. rewrite feed_escaped by done.
    by rewrite splitRune_DQ.
  - pose proof (ContainsAny_false _ _ E) as Hno.
    assert (" "%char ∉ p) as Hsp by (apply Hno; set_solver).
    assert (DQ ∉ p) as Hdq by (apply Hno; set_solver).
    apply feed_plain; try done. intros Hb. by destruct (Hbs Hb).
Qed.

Lemma Join_ascii ps :
  Forall (Forall (λ b, (utf8dec.code b < 128)%Z)) ps →
  Forall (λ b, (utf8dec.code b < 128)%Z) (strings2.Join ps " ").
Proof.
  induction 1 as [|p ps Hp Hps IH]; [done|].
  destruct ps as [|q ps]; [done|].
  change (strings2.Join (p :: q :: ps) " ")
    with (p ++ " " ++ strings2.Join (q :: ps) " ").
  apply Forall_app. split; [done|]. apply Forall_app. split; [|done].
  by apply Forall_singleton.
Qed.

Lemma feed_Join ps acc :
  Forall (λ p, 0 < length p ∧ Forall (λ b, (utf8dec.code b < 128)%Z) p
               ∧ (BS ∈ p → " "%char ∈ p ∨ DQ ∈ p)) ps →
  let st := foldl splitRune (mkSplitter acc [] false false)
              (utf8dec.code <$> strings2.Join (quoteArg <$> ps) " ") in
  (if 0 <? length (current st) then parts st ++ [current st] else parts st)
  = acc ++ ps.
Proof.
  intros Hps. revert acc. induction Hps as [|p ps (Hne & Hp & Hbs) _ IH];
    intros acc.
  - cbn. by rewrite app_nil_r.
  - destruct ps as [|q ps].
    + cbn [fmap list_fmap strings2.Join]. rewrite feed_quoteArg by done.
      cbn [current parts app]. by apply Nat.ltb_lt in Hne as ->.
    + change (strings2.Join (quoteArg <$> p :: q :: ps) " ")
        with (quoteArg p ++ " " ++ strings2.Join (quoteArg <$> q :: ps) " ").
      rewrite !fmap_app, !foldl_app. rewrite feed_quoteArg by done.
      cbn [app]. change (String.list_ascii_of_string " ") with [" "%char].
      cbn [fmap list_fmap foldl]. rewrite splitRune_space.
      apply Nat.ltb_lt in Hne as ->.
      replace (acc ++ p :: q :: ps) with ((acc ++ [p]) ++ q :: ps)
        by (by rewrite <- app_assoc).
      exact (IH (acc ++ [p])).
Qed.

(** The parts collected so far are never empty. *)
Lemma splitRune_parts_nonempty st r :
  Forall (λ p, 0 < length p) (parts st) →
  Forall (λ p, 0 < length p) (parts (splitRune st r)).
Proof.
  intros H. unfold splitRune.
  repeat (case_match; cbn [parts]); try done.
  apply Forall_app. split; [done|]. apply Forall_singleton.
  by apply Nat.ltb_lt.
Qed.

Lemma foldl_splitRune_parts_nonempty rs st :
  Forall (λ p, 0 < length p) (parts st) →
  Forall (λ p, 0 < length p) (parts (foldl splitRune st rs)).
Proof.
  revert st. induction rs as [|r rs IH]; intros st H; [done|].
  cbn. by apply IH, splitRune_parts_nonempty.
Qed.

Lemma SplitCommand_nonempty cmd :
  Forall (λ p : gostring, 0 < length p) (SplitCommand cmd).
Proof.
  unfold SplitCommand.
  pose proof (foldl_splitRune_parts_nonempty (utf8dec.Range cmd)
                (mkSplitter [] [] false false) (Forall_nil_2 _)) as H.
  destruct (0 <? length _) eqn:E; [|done].
  apply Forall_app. split; [done|]. apply Forall_singleton.
  by apply Nat.ltb_lt.
Qed.

End commands_split.

(** X18: [SplitCommand] never returns an empty part, whatever its
    input; so a list with an empty part does not survive
    [JoinCommand] followed by [SplitCommand]. *)
Theorem X18_SplitCommand_no_empty_part (cmd : gostring) :
  Forall (λ p : gostring, 0 < length p) (util.SplitCommand cmd)
  ∧ ∀ parts : list gostring,
      [] ∈ parts → util.SplitCommand (util.JoinCommand parts) ≠ parts.
Proof.
  split; [apply SplitCommand_nonempty|].
  intros parts Hin Heq.
  pose proof (SplitCommand_nonempty (util.JoinCommand parts)) as H.
  rewrite Heq in H. rewrite Forall_forall in H.
  specialize (H [] Hin). simpl in H. lia.
Qed.

(** X19: [SplitCommand] undoes [JoinCommand] on every list of parts that
    are non-empty, hold ASCII bytes only, and hold a backslash only
    together with a space or a double quote (a part without space and
    quote is joined as it is, and its backslashes would be read as
    escapes). *)
Theorem X19_SplitCommand_JoinCommand (parts : list gostring) :
  Forall (λ p, 0 < length p ∧ Forall (λ b, (utf8dec.code b < 128)%Z) p
               ∧ (BS ∈ p → " "%char ∈ p ∨ DQ ∈ p)) parts →
  util.SplitCommand (util.JoinCommand parts) = parts.
Proof.
  intros H. unfold util.SplitCommand, util.JoinCommand.
  rewrite Range_ascii.
  - apply (feed_Join parts [] H).
  - apply Join_ascii. apply Forall_fmap.
    eapply Forall_impl; [exact H|]. intros p (_ & Hp & _).
    by apply quoteArg_ascii.
Qed.

Lemma X19_witness :
  util.SplitCommand
    (util.JoinCommand [("EXEC" : gostring); ("Say hello" : gostring);
                       [DQ; "a"%char; BS; " "%char; DQ]])
  = [("EXEC" : gostring); ("Say hello" : gostring);
     [DQ; "a"%char; BS; " "%char; DQ]].
Proof.
  apply (X19_SplitCommand_JoinCommand
           [("EXEC" : gostring); ("Say hello" : gostring);
            [DQ; "a"%char; BS; " "%char; DQ]]).
  apply (bool_decide_unpack _). vm_compute. exact I.
Defined.


(** ** The environment parser of util.go *)

Section ParseAGIEnv.

Import wire util.

Implicit Types (k v l t last blank : gostring) (kv : gostring * gostring)
  (e : gmap gostring gostring).

Lemma space_not_a : ∀ p, p ∈ strings.spaceRunes → head p ≠ Some "a"%char.
Proof.
  rewrite <-?Forall_forall; apply (bool_decide_unpack _); vm_compute; exact I.
Qed.

Lemma space_no_underscore :
  ∀ p, p ∈ reverse <$> strings.spaceRunes → "_"%char ∉ p.
Proof.
  rewrite <-?Forall_forall; apply (bool_decide_unpack _); vm_compute; exact I.
Qed.

Lemma TrimRightSpace_underscore k t :
  strings.TrimRightSpace (k ++ "_"%char :: t)
  = k ++ "_"%char :: strings.TrimRightSpace t.
Proof.
  rewrite !TrimRightSpace_eq, reverse_app, reverse_cons, <-(assoc_L (++)).
  simpl.
  rewrite (trim_barrier _ R_nonempty R_prefix_free)
    by apply space_no_underscore.
  by rewrite reverse_app, reverse_cons, reverse_involutive, <-(assoc_L (++)).
Qed.

(** A string that starts with "agi_" keeps that start when trimmed. *)
Lemma TrimSpace_agi t :
  strings.TrimSpace ("agi_" ++ t) = "agi_" ++ strings.TrimRightSpace t.
Proof.
  unfold strings.TrimSpace.
  change ("agi_" ++ t)
    with ("a"%char :: ["g"%char; "i"%char] ++ "_"%char :: t).
  rewrite TrimLeftSpace_stop
    by (apply cutAny_head_None; [apply L_nonempty | apply space_not_a]).
  change ("a"%char :: ["g"%char; "i"%char] ++ "_"%char :: t)
    with (["a"%char; "g"%char; "i"%char] ++ "_"%char :: t).
  by rewrite TrimRightSpace_underscore.
Qed.

(** A prefix without the byte [c] ends before the first [c]. *)
Lemma prefix_before_byte (c : ascii) p x t :
  c ∉ p → p `prefix_of` x ++ c :: t → p `prefix_of` x.
Proof.
  revert x. induction p as [|a p IH]; intros x Hc Hp; [apply prefix_nil|].
  apply not_elem_of_cons in Hc as [Hca Hc].
  destruct x as [|b x]; simpl in Hp.
  - apply prefix_cons_inv_1 in Hp. congruence.
  - pose proof (prefix_cons_inv_1 _ _ _ _ Hp) as ->.
    apply prefix_cons, IH; [done|]. by apply prefix_cons_inv_2 in Hp.
Qed.

(** The key of a line starts with "agi_" exactly when the line does. *)
Lemma agi_key_line k t :
  strings.HasPrefix (strings.TrimSpace k) "agi_"
  = strings.HasPrefix (strings.TrimLeftSpace k ++ ":"%char :: t) "agi_".
Proof.
  apply eq_true_iff_eq. rewrite !HasPrefix_spec. split.
  - intros H. apply prefix_app_r.
    etrans; [exact H|]. apply TrimRightSpace_prefix.
  - intros H. apply prefix_before_byte in H;
      [|apply (bool_decide_unpack _); vm_compute; exact I].
    destruct H as [r Hr]. unfold strings.TrimSpace. rewrite Hr.
    change (strings.TrimRightSpace ("agi_" ++ r))
      with (strings.TrimRightSpace
              (["a"%char; "g"%char; "i"%char] ++ "_"%char :: r)).
    rewrite TrimRightSpace_underscore. by eexists.
Qed.

Lemma SplitN_2_inv (c : ascii) s p0 p1 :
  strings.SplitN s [c] 2 = [p0; p1] → s = p0 ++ c :: p1 ∧ c ∉ p0.
Proof.
  intros H. destruct (decide (c ∈ s)) as [Hin|Hout].
  - apply list_elem_of_split_l in Hin as (k & t & -> & Hk).
    rewrite (SplitN_2_byte c k t Hk) in H. by simplify_eq.
  - by rewrite (SplitN_2_absent c s Hout) in H.
Qed.

(** One iteration on a header line: the binding is made when the key
    starts with "agi_", and the line is skipped otherwise. *)
Lemma envLine_header e kv :
  wellFormed kv →
  envLine e (fst kv ++ ":" ++ snd kv)
  = if bool_decide (strings.HasPrefix (strings.TrimSpace (fst kv)) "agi_"
                    = true)
    then bind e kv else e.
Proof.
  destruct kv as [k v]. intros (Hc & _ & _). cbn [fst snd] in *.
  unfold envLine, bind. cbn [fst snd].
  change (String.list_ascii_of_string ":") with [":"%char].
  change (k ++ [":"%char] ++ v) with (k ++ ":"%char :: v).
  rewrite TrimSpace_colon.
  rewrite bool_decide_eq_false_2 by (by destruct (strings.TrimLeftSpace k)).
  rewrite <- agi_key_line.
  destruct (strings.HasPrefix (strings.TrimSpace k) _) eqn:E.
  - rewrite bool_decide_eq_true_2 by done.
    rewrite (SplitN_2_byte ":"%char)
      by (intros H; by apply TrimLeftSpace_elem in H).
    by rewrite TrimSpace_TrimLeftSpace, TrimSpace_TrimRightSpace.
  - by rewrite bool_decide_eq_false_2 by done.
Qed.

Lemma envLine_blank e blank : strings.TrimSpace blank = [] → envLine e blank = e.
Proof. intros H. unfold envLine. rewrite H. done. Qed.

Lemma foldl_envLine_headers kvs e :
  Forall wellFormed kvs →
  foldl envLine e ((λ kv, fst kv ++ ":" ++ snd kv) <$> kvs)
  = blockEnv
      (filter (λ kv, strings.HasPrefix (strings.TrimSpace (fst kv)) "agi_"
                     = true) kvs) e.
Proof.
  intros Hwf. revert e. induction Hwf as [|kv kvs Hkv _ IH]; intros e; [done|].
  cbn [fmap list_fmap foldl]. rewrite (envLine_header e kv Hkv).
  rewrite filter_cons. case_bool_decide as Hp.
  - rewrite decide_True by done. rewrite IH. done.
  - rewrite decide_False by done. rewrite IH. done.
Qed.

Lemma splitUpTo_SS n (s sep : gostring) :
  strings.splitUpTo (S (S n)) s sep
  = match strings.Index s sep with
    | None => [s]
    | Some m =>
        take m s :: strings.splitUpTo (S n) (drop (m + length sep) s) sep
    end.
Proof. reflexivity. Qed.

(** The pieces of a text cut at its line feeds. *)
Lemma splitUpTo_lines (ls : list gostring) last n :
  Forall (λ l, LF ∉ l) ls → LF ∉ last → length ls < n →
  strings.splitUpTo n (concat ((λ l, l ++ nl) <$> ls) ++ last) nl
  = ls ++ [last].
Proof.
  intros Hls Hlast. revert n. induction Hls as [|l ls Hl _ IH]; intros n Hn.
  - cbn [fmap list_fmap concat app].
    destruct n as [|[|n]]; [lia|done|].
    rewrite splitUpTo_SS. unfold nl. by rewrite (Index_absent LF last Hlast).
  - cbn [length] in Hn. destruct n as [|[|n]]; [lia|lia|].
    cbn [fmap list_fmap concat]. rewrite <- !app_assoc.
    rewrite splitUpTo_SS.
    change (nl ++ concat ((λ l0, l0 ++ nl) <$> ls) ++ last)
      with (LF :: concat ((λ l0, l0 ++ nl) <$> ls) ++ last).
    change (strings.Index (l ++ LF :: concat ((λ l0, l0 ++ nl) <$> ls) ++ last)
              nl)
      with (strings.Index
              (l ++ LF :: concat ((λ l0, l0 ++ nl) <$> ls) ++ last) [LF]).
    rewrite (Index_byte LF l _ Hl).
    rewrite take_app_length.
    replace (length l + length nl) with (length (l ++ [LF]))
      by (by rewrite length_app).
    replace (l ++ LF :: concat ((λ l0, l0 ++ nl) <$> ls) ++ last)
      with ((l ++ [LF]) ++ concat ((λ l0, l0 ++ nl) <$> ls) ++ last)
      by (by rewrite <- app_assoc).
    rewrite drop_app_length.
    rewrite IH by lia. done.
Qed.

Lemma Split_lines (ls : list gostring) last :
  Forall (λ l, LF ∉ l) ls → LF ∉ last →
  strings2.Split (concat ((λ l, l ++ nl) <$> ls) ++ last) nl = ls ++ [last].
Proof.
  intros Hls Hlast. unfold strings2.Split, strings.SplitN.
  change (-1 <? 0)%Z with true. cbn iota.
  apply splitUpTo_lines; [done..|].
  rewrite length_app. 
  assert (length ls ≤ length (concat ((λ l, l ++ nl) <$> ls))); [|lia].
  clear. induction ls as [|l ls IH]; [done|].
  cbn [fmap list_fmap concat length]. rewrite !length_app. simpl. lia.
Qed.

Lemma headerBlock_lines kvs blank :
  headerBlock kvs blank
  = concat ((λ l, l ++ nl)
              <$> (((λ kv, fst kv ++ ":" ++ snd kv) <$> kvs) ++ [blank]))
    ++ [].
Proof.
  unfold headerBlock, headerLines. rewrite app_nil_r, fmap_app, concat_app.
  cbn [fmap list_fmap concat]. rewrite app_nil_r. f_equal.
  rewrite <- list_fmap_compose. f_equal. apply list_fmap_ext.
  intros i kv _. unfold headerLine. cbn. by rewrite <- !app_assoc.
Qed.

Lemma ParseAGIEnv_headerBlock kvs blank :
  Forall wellFormed kvs →
  LF ∉ blank → strings.TrimSpace blank = [] →
  ParseAGIEnv (headerBlock kvs blank)
  = blockEnv
      (filter (λ kv, strings.HasPrefix (strings.TrimSpace (fst kv)) "agi_"
                     = true) kvs) ∅.
Proof.
  intros Hwf Hb Ht. unfold ParseAGIEnv.
  rewrite headerBlock_lines, Split_lines.
  - rewrite !foldl_app. cbn [foldl].
    rewrite (envLine_blank _ []) by done.
    rewrite (envLine_blank _ blank) by done.
    by apply foldl_envLine_headers.
  - apply Forall_app. split; [|by apply Forall_singleton].
    apply Forall_fmap. eapply Forall_impl; [exact Hwf|].
    intros [k v] (Hc & Hk & Hv). cbn.
    change (String.list_ascii_of_string ":") with [":"%char].
    rewrite !not_elem_of_app, not_elem_of_cons. repeat split; try done.
    apply not_elem_of_nil.
  - apply not_elem_of_nil.
Qed.

(** What every iteration keeps: the keys start with "agi_", hold no
    colon, and keys and values are trimmed. *)
Lemma envLine_keys e line :
  (∀ k v, e !! k = Some v →
     strings.HasPrefix k "agi_" = true ∧ (":"%char ∉ k)
     ∧ strings.TrimSpace k = k ∧ strings.TrimSpace v = v) →
  ∀ k v, envLine e line !! k = Some v →
     strings.HasPrefix k "agi_" = true ∧ (":"%char ∉ k)
     ∧ strings.TrimSpace k = k ∧ strings.TrimSpace v = v.
Proof.
  intros He k v. unfold envLine.
  case_bool_decide as Hne; [apply He|].
  destruct (strings.HasPrefix _ _) eqn:Hp; [|apply He].
  destruct (strings.SplitN _ _ _) as [|p0 [|p1 [|p2 ps]]] eqn:Hs;
    try apply He.
  change (String.list_ascii_of_string ":") with [":"%char] in Hs.
  apply SplitN_2_inv in Hs as [Hline Hc].
  rewrite lookup_insert_Some. intros [[<- <-]|[_ Hkv]]; [|by apply He].
  rewrite !TrimSpace_idemp. repeat split.
  - apply HasPrefix_spec in Hp. rewrite Hline in Hp.
    apply prefix_before_byte in Hp;
      [|apply (bool_decide_unpack _); vm_compute; exact I].
    destruct Hp as [r ->]. rewrite TrimSpace_agi.
    apply HasPrefix_spec. by eexists.
  - intros H. by apply TrimSpace_elem in H.
Qed.

Lemma ParseAGIEnv_keys input k v :
  ParseAGIEnv input !! k = Some v →
  strings.HasPrefix k "agi_" = true ∧ (":"%char ∉ k)
  ∧ strings.TrimSpace k = k ∧ strings.TrimSpace v = v.
Proof.
  unfold ParseAGIEnv. generalize (strings2.Split input nl). intros ls.
  revert k v. induction ls as [|l ls IH] using rev_ind.
  - intros k v H. cbn [foldl] in H. by rewrite lookup_empty in H.
  - rewrite foldl_app. cbn [foldl]. by apply envLine_keys.
Qed.

End ParseAGIEnv.

(** X20: every key of the mapping that [ParseAGIEnv] returns starts with
    "agi_" and holds no colon, and keys and values carry no white space
    at either end, whatever the input. *)
Theorem X20_ParseAGIEnv_keys (input k v : gostring) :
  util.ParseAGIEnv input !! k = Some v →
  strings.HasPrefix k "agi_" = true ∧ (":"%char ∉ k)
  ∧ strings.TrimSpace k = k ∧ strings.TrimSpace v = v.
Proof. apply ParseAGIEnv_keys. Qed.

Lemma X20_witness :
  strings.HasPrefix "agi_network" "agi_" = true
  ∧ (":"%char ∉ ("agi_network" : gostring))
  ∧ strings.TrimSpace "agi_network" = "agi_network"
  ∧ strings.TrimSpace "yes" = "yes".
Proof.
  apply (X20_ParseAGIEnv_keys
           ("foo: bar" ++ nl ++ " agi_network : yes " ++ nl ++ nl)).
  vm_compute. reflexivity.
Defined.

(** X21: on a well-formed header block closed by a blank line,
    [ParseAGIEnv] returns the mapping that [readEnvironment] builds from
    the lines whose key starts with "agi_": it skips the other lines,
    where [readEnvironment] binds them too.  The two agree when every
    key starts with "agi_". *)
Theorem X21_ParseAGIEnv_header_block
    (kvs : list (gostring * gostring)) (blank : gostring) :
  Forall wire.wellFormed kvs →
  LF ∉ blank → strings.TrimSpace blank = [] →
  util.ParseAGIEnv (wire.headerBlock kvs blank)
  = wire.blockEnv
      (filter (λ kv, strings.HasPrefix (strings.TrimSpace (fst kv)) "agi_"
                     = true) kvs) ∅
  ∧ (Forall (λ kv, strings.HasPrefix (strings.TrimSpace (fst kv)) "agi_"
                   = true) kvs →
     ∀ s, reader s = wire.headerBlock kvs blank → env s = ∅ →
       env (snd (readEnvironment s))
       = util.ParseAGIEnv (wire.headerBlock kvs blank)).
Proof.
  intros Hwf Hb Ht.
  pose proof (ParseAGIEnv_headerBlock kvs blank Hwf Hb Ht) as HP.
  split; [exact HP|]. intros Hall s Hr He.
  rewrite (readEnvironment_block kvs blank [] s Hwf Hb Ht)
    by (by rewrite app_nil_r).
  rewrite HP. cbn. rewrite He. f_equal. symmetry.
  clear -Hall. induction Hall as [|kv kvs Hkv _ IH]; [done|].
  rewrite filter_cons, decide_True by done. by rewrite IH.
Qed.

Lemma X21_witness :
  util.ParseAGIEnv
    (wire.headerBlock [("agi_network" : gostring, " yes" : gostring);
                       ("x_other" : gostring, " 1" : gostring)] [])
  = wire.blockEnv
      (filter (λ kv, strings.HasPrefix (strings.TrimSpace (fst kv)) "agi_"
                     = true)
         [("agi_network" : gostring, " yes" : gostring);
          ("x_other" : gostring, " 1" : gostring)]) ∅.
Proof.
  apply (proj1 (X21_ParseAGIEnv_header_block
                  [("agi_network" : gostring, " yes" : gostring);
                   ("x_other" : gostring, " 1" : gostring)] []
                  ltac:(repeat first [apply Forall_nil | apply Forall_cons; split
                                     | split];
                        apply (bool_decide_unpack _); vm_compute; exact I)
                  ltac:(apply (bool_decide_unpack _); vm_compute; exact I)
                  ltac:(vm_compute; reflexivity))).
Defined.


(** ** The date format substitutions *)

Section replace_commute.

Implicit Types (s r t w old new : gostring).

Lemma replaceFrom_drop k s old new :
  strings.replaceFrom k s old new = strings.replaceFrom 0 (drop k s) old new.
Proof.
  revert k. induction s as [|c s IH]; intros k.
  - by rewrite drop_nil.
  - destruct k as [|k]; [done|]. cbn [strings.replaceFrom drop]. apply IH.
Qed.

Lemma ReplaceAll_match old new r :
  old ≠ [] →
  strings.ReplaceAll (old ++ r) old new = new ++ strings.ReplaceAll r old new.
Proof.
  intros Hne. destruct old as [|a old]; [done|].
  unfold strings.ReplaceAll.
  change ((a :: old) ++ r) with (a :: (old ++ r)).
  cbn [strings.replaceFrom].
  change (a :: (old ++ r)) with ((a :: old) ++ r). rewrite HasPrefix_app.
  rewrite replaceFrom_drop.
  replace (length (a :: old) - 1) with (length old) by (simpl; lia).
  by rewrite drop_app_length.
Qed.

Lemma ReplaceAll_skip c s old new :
  strings.HasPrefix (c :: s) old = false →
  strings.ReplaceAll (c :: s) old new = c :: strings.ReplaceAll s old new.
Proof. intros H. unfold strings.ReplaceAll. cbn [strings.replaceFrom]. by rewrite H. Qed.

(** No occurrence starts inside a run that lacks the first byte of [old]. *)
Lemma ReplaceAll_pass (b : ascii) old new w t :
  b ∉ w →
  strings.ReplaceAll (w ++ t) (b :: old) new
  = w ++ strings.ReplaceAll t (b :: old) new.
Proof.
  induction w as [|x w IH]; intros Hb; [done|].
  apply not_elem_of_cons in Hb as [Hx Hb].
  cbn [app]. rewrite ReplaceAll_skip.
  - by rewrite IH.
  - cbn. by rewrite bool_decide_eq_false_2 by done.
Qed.

Lemma run_no_other (x y : ascii) (l : gostring) :
  x ≠ y → Forall (eq x) l → y ∉ l.
Proof.
  intros Hxy Hl Hin. rewrite Forall_forall in Hl.
  specialize (Hl _ Hin). congruence.
Qed.

(** Replacing runs of [a] by a text without [b] does not change whether
    a string starts with a run of [b]. *)
Lemma HasPrefix_ReplaceAll_run (a b : ascii) (p u q' : gostring) s :
  a ≠ b → u ≠ [] → b ∉ u → Forall (eq b) q' →
  strings.HasPrefix (strings.ReplaceAll s (a :: p) u) q'
  = strings.HasPrefix s q'.
Proof.
  intros ab Hu Hbu Hq. revert s.
  induction Hq as [|y q' <- _ IH]; intros s; [done|].
  destruct s as [|c s]; [done|].
  destruct (strings.HasPrefix (c :: s) (a :: p)) eqn:E.
  - apply HasPrefix_spec in E as [r Hr]. rewrite Hr.
    rewrite ReplaceAll_match by done.
    destruct u as [|x u']; [done|].
    apply not_elem_of_cons in Hbu as [Hx _].
    cbn. rewrite bool_decide_eq_false_2 by done.
    by rewrite bool_decide_eq_false_2 by done.
  - rewrite ReplaceAll_skip by done. cbn. by rewrite IH.
Qed.

(** Substitutions for runs of different bytes commute, when neither
    puts the other's byte into the text. *)
Lemma ReplaceAll_commute (a b : ascii) (p q u v : gostring) :
  a ≠ b → Forall (eq a) p → Forall (eq b) q →
  u ≠ [] → v ≠ [] → b ∉ u → a ∉ v →
  ∀ s, strings.ReplaceAll (strings.ReplaceAll s (a :: p) u) (b :: q) v
       = strings.ReplaceAll (strings.ReplaceAll s (b :: q) v) (a :: p) u.
Proof.
  intros ab Hp Hq Hu Hv Hbu Hav s.
  remember (length s) as n eqn:Hn. revert s Hn.
  induction (lt_wf n) as [n _ IH]. intros s ->.
  destruct s as [|c s]; [done|].
  destruct (strings.HasPrefix (c :: s) (a :: p)) eqn:Ea.
  { apply HasPrefix_spec in Ea as [r Hr]. rewrite Hr.
    rewrite ReplaceAll_match by done.
    rewrite (ReplaceAll_pass b q v u) by done.
    rewrite (ReplaceAll_pass b q v (a :: p)).
    - rewrite ReplaceAll_match by done. f_equal.
      apply (IH (length r)); [|done]. rewrite Hr, length_app. simpl. lia.
    - apply not_elem_of_cons. split; [done|].
      by apply (run_no_other a b). }
  destruct (strings.HasPrefix (c :: s) (b :: q)) eqn:Eb.
  { apply HasPrefix_spec in Eb as [r Hr]. rewrite Hr.
    rewrite (ReplaceAll_match (b :: q)) by done.
    rewrite (ReplaceAll_pass a p u v) by done.
    rewrite (ReplaceAll_pass a p u (b :: q)).
    - rewrite ReplaceAll_match by done. f_equal.
      apply (IH (length r)); [|done]. rewrite Hr, length_app. simpl. lia.
    - apply not_elem_of_cons. split; [done|].
      by apply (run_no_other b a). }
  rewrite (ReplaceAll_skip c s (a :: p)) by done.
  rewrite (ReplaceAll_skip c s (b :: q)) by done.
  rewrite !ReplaceAll_skip.
  - f_equal. apply (IH (length s)); [simpl; lia|done].
  - rewrite <- (ReplaceAll_skip c s (b :: q)) by done.
    rewrite (HasPrefix_ReplaceAll_run b a q v); try done.
    by apply Forall_cons.
  - rewrite <- (ReplaceAll_skip c s (a :: p)) by done.
    rewrite (HasPrefix_ReplaceAll_run a b p u); try done.
    by apply Forall_cons.
Qed.

End replace_commute.

Section fold_order.

Context {A B : Type} (f : A → B → A).

Lemma foldl_commute_all (x : B) (l : list B) (s : A) :
  (∀ y, y ∈ l → ∀ t, f (f t x) y = f (f t y) x) →
  foldl f (f s x) l = f (foldl f s l) x.
Proof.
  revert s. induction l as [|y l IH]; intros s H; [done|].
  cbn [foldl]. rewrite H by apply list_elem_of_here.
  apply IH. intros z Hz. apply H. by apply list_elem_of_further.
Qed.

(** Visiting first the elements with [P], then the others, gives the
    same result when each of the others commutes with each of those
    with [P]. *)
Lemma foldl_partition (P : B → Prop) `{∀ x, Decision (P x)}
    (l : list B) (s : A) :
  (∀ x y, x ∈ l → y ∈ l → ¬ P x → P y → ∀ t, f (f t x) y = f (f t y) x) →
  foldl f s l = foldl f s (filter P l ++ filter (λ x, ¬ P x) l).
Proof.
  revert s. induction l as [|x l IH]; intros s Hc; [done|].
  assert (∀ s', foldl f s' l
                = foldl f s' (filter P l ++ filter (λ x, ¬ P x) l)) as IH'.
  { intros s'. apply IH. intros x' y' Hx' Hy'.
    apply Hc; by apply list_elem_of_further. }
  cbn [foldl]. rewrite !filter_cons. destruct (decide (P x)) as [Hx|Hx].
  - rewrite decide_False by tauto. cbn [app foldl]. apply IH'.
  - rewrite decide_True by done. rewrite IH', !foldl_app. cbn [foldl].
    f_equal. apply foldl_commute_all. intros y Hy.
    apply list_elem_of_filter in Hy as [HPy Hy].
    apply Hc; try done; [apply list_elem_of_here|by apply list_elem_of_further].
Qed.

(** A permutation of elements that commute pairwise gives the same
    result. *)
Lemma foldl_permutation_commute `{EqDecision B} (l1 l2 : list B) :
  l1 ≡ₚ l2 →
  (∀ x y, x ∈ l1 → y ∈ l1 → x ≠ y → ∀ t, f (f t x) y = f (f t y) x) →
  ∀ s, foldl f s l1 = foldl f s l2.
Proof.
  induction 1 as [|x l1 l2 Hp IH|x y l|l1 l2 l3 H12 IH1 H23 IH2];
    intros Hc s.
  - done.
  - cbn [foldl]. apply IH. intros x' y' Hx' Hy'.
    apply Hc; by apply list_elem_of_further.
  - cbn [foldl]. f_equal.
    destruct (decide (y = x)) as [->|Hne]; [done|].
    apply Hc; [apply list_elem_of_here| |done].
    apply list_elem_of_further, list_elem_of_here.
  - rewrite IH1 by done. apply IH2. intros x y Hx Hy.
    apply Hc; by rewrite H12.
Qed.

End fold_order.

Section FormatDateTime.

Import util.

Implicit Types (x y : gostring * gostring) (order : list (gostring * gostring)).

(** Two entries for different letters commute. *)
Lemma replacements_commute x y :
  x ∈ replacements → y ∈ replacements → head (fst x) ≠ head (fst y) →
  ∀ t, strings.ReplaceAll (strings.ReplaceAll t (fst x) (snd x)) (fst y) (snd y)
       = strings.ReplaceAll (strings.ReplaceAll t (fst y) (snd y))
           (fst x) (snd x).
Proof.
  unfold replacements. intros Hx Hy.
  repeat (apply elem_of_cons in Hx as [->|Hx]);
    try (by apply elem_of_nil in Hx);
    repeat (apply elem_of_cons in Hy as [->|Hy]);
    try (by apply elem_of_nil in Hy);
    intros Hh; cbn [fst snd] in *; try (by destruct Hh);
    apply ReplaceAll_commute;
    apply (bool_decide_unpack _); vm_compute; exact I.
Qed.

(** The entries other than the two for the year have different letters. *)
Lemma replacements_letters x y :
  x ∈ drop 2 replacements → y ∈ drop 2 replacements → x ≠ y →
  head (fst x) ≠ head (fst y).
Proof.
  unfold replacements. cbn [drop]. intros Hx Hy.
  repeat (apply elem_of_cons in Hx as [->|Hx]);
    try (by apply elem_of_nil in Hx);
    repeat (apply elem_of_cons in Hy as [->|Hy]);
    try (by apply elem_of_nil in Hy);
    intros Hne; try (by destruct Hne);
    apply (bool_decide_unpack _); vm_compute; exact I.
Qed.

Lemma FormatDateTimeIn_year_first order format :
  order ≡ₚ replacements →
  ∃ ys, (ys = take 2 replacements ∨ ys = reverse (take 2 replacements))
    ∧ filter (λ x, head (fst x) = Some "Y"%char) order = ys
    ∧ FormatDateTimeIn order format
      = FormatDateTimeIn (ys ++ drop 2 replacements) format.
Proof.
  intros Hperm. unfold FormatDateTimeIn.
  set (f := λ (result : gostring) (ft : gostring * gostring),
              strings.ReplaceAll result (fst ft) (snd ft)).
  set (P := λ x : gostring * gostring, head (fst x) = Some "Y"%char).
  assert (filter P order ≡ₚ take 2 replacements) as HY.
  { rewrite Hperm. subst P. vm_compute. reflexivity. }
  assert (filter (λ x, ¬ P x) order ≡ₚ drop 2 replacements) as HN.
  { rewrite Hperm. subst P. vm_compute. reflexivity. }
  exists (filter P order). split; [|split; [done|]].
  { symmetry in HY. apply Permutation_length_2_inv in HY as [->| ->];
      [by left | by right]. }
  rewrite (foldl_partition f P order format).
  - rewrite !foldl_app. apply (foldl_permutation_commute f _ _ HN).
    intros x y Hx Hy Hne t. apply replacements_commute.
    + apply list_elem_of_filter in Hx as [_ Hx]. by rewrite <- Hperm.
    + apply list_elem_of_filter in Hy as [_ Hy]. by rewrite <- Hperm.
    + apply replacements_letters; [by rewrite <- HN..|done].
  - intros x y Hx Hy HPx HPy t. apply replacements_commute.
    + by rewrite <- Hperm.
    + by rewrite <- Hperm.
    + unfold P in HPx, HPy. rewrite HPy. done.
Qed.

End FormatDateTime.

(** X22: the result of [FormatDateTime] depends on the order in which the
    loop visits the map, and on nothing of it but which of the entries
    "YYYY" and "YY" comes first.  In every order with "YYYY" before "YY"
    the result is the one of the order in which the map is written; in
    every order with "YY" before "YYYY" it is the one of the order with
    these two swapped; and on the format "YYYY" the two differ, the
    second giving "0606" for "2006". *)
Theorem X22_FormatDateTime_visiting_order
    (order : list (gostring * gostring)) (format : gostring) :
  order ≡ₚ util.replacements →
  let yyyy := ("YYYY" : gostring, "2006" : gostring) in
  let yy := ("YY" : gostring, "06" : gostring) in
  let swapped := yy :: yyyy :: drop 2 util.replacements in
  (∀ l1 l2 l3, order = l1 ++ yyyy :: l2 ++ yy :: l3 →
     util.FormatDateTimeIn order format
     = util.FormatDateTimeIn util.replacements format)
  ∧ (∀ l1 l2 l3, order = l1 ++ yy :: l2 ++ yyyy :: l3 →
       util.FormatDateTimeIn order format
       = util.FormatDateTimeIn swapped format)
  ∧ (util.FormatDateTimeIn order format
     = util.FormatDateTimeIn util.replacements format
     ∨ util.FormatDateTimeIn order format
       = util.FormatDateTimeIn swapped format)
  ∧ util.FormatDateTimeIn util.replacements "YYYY" = "2006"
  ∧ util.FormatDateTimeIn swapped "YYYY" = "0606".
Proof.
  intros Hperm yyyy yy swapped.
  destruct (FormatDateTimeIn_year_first order format Hperm)
    as (ys & Hys & Hfilter & Heq).
  assert (∀ a b l1 l2 l3,
            order = l1 ++ a :: l2 ++ b :: l3 →
            head (fst a) = Some "Y"%char → head (fst b) = Some "Y"%char →
            ys = [a; b]) as Hfirst.
  { intros a b l1 l2 l3 -> Ha Hb.
    rewrite filter_app, filter_cons, decide_True in Hfilter by done.
    rewrite filter_app, filter_cons, decide_True in Hfilter by done.
    assert (length ys = 2) as Hlen by (by destruct Hys as [-> | ->]).
    rewrite <- Hfilter in Hlen. rewrite !length_app in Hlen.
    cbn [length] in Hlen. rewrite !length_app in Hlen. cbn [length] in Hlen.
    destruct (filter _ l1); [|simpl in Hlen; lia].
    destruct (filter _ l2); [|simpl in Hlen; lia].
    destruct (filter _ l3); [|simpl in Hlen; lia].
    by rewrite <- Hfilter. }
  split; [|split; [|split; [|split]]].
  - intros l1 l2 l3 Ho. rewrite Heq.
    by rewrite (Hfirst yyyy yy l1 l2 l3 Ho eq_refl eq_refl).
  - intros l1 l2 l3 Ho. rewrite Heq.
    by rewrite (Hfirst yy yyyy l1 l2 l3 Ho eq_refl eq_refl).
  - rewrite Heq. destruct Hys as [-> | ->]; [by left | by right].
  - vm_compute. reflexivity.
  - vm_compute. reflexivity.
Qed.

Lemma X22_witness :
  (∀ l1 l2 l3,
     reverse util.replacements
     = l1 ++ ("YYYY" : gostring, "2006" : gostring)
          :: l2 ++ ("YY" : gostring, "06" : gostring) :: l3 →
     util.FormatDateTimeIn (reverse util.replacements) "YYYY-MM-DD"
     = util.FormatDateTimeIn util.replacements "YYYY-MM-DD")
  ∧ (∀ l1 l2 l3,
       reverse util.replacements
       = l1 ++ ("YY" : gostring, "06" : gostring)
            :: l2 ++ ("YYYY" : gostring, "2006" : gostring) :: l3 →
       util.FormatDateTimeIn (reverse util.replacements) "YYYY-MM-DD"
       = util.FormatDateTimeIn
           (("YY" : gostring, "06" : gostring)
            :: ("YYYY" : gostring, "2006" : gostring)
            :: drop 2 util.replacements) "YYYY-MM-DD")
  ∧ (util.FormatDateTimeIn (reverse util.replacements) "YYYY-MM-DD"
     = util.FormatDateTimeIn util.replacements "YYYY-MM-DD"
     ∨ util.FormatDateTimeIn (reverse util.replacements) "YYYY-MM-DD"
       = util.FormatDateTimeIn
           (("YY" : gostring, "06" : gostring)
            :: ("YYYY" : gostring, "2006" : gostring)
            :: drop 2 util.replacements) "YYYY-MM-DD")
  ∧ util.FormatDateTimeIn util.replacements "YYYY" = "2006"
  ∧ util.FormatDateTimeIn
      (("YY" : gostring, "06" : gostring)
       :: ("YYYY" : gostring, "2006" : gostring)
       :: drop 2 util.replacements) "YYYY"
    = "0606".
Proof.
  apply (X22_FormatDateTime_visiting_order (reverse util.replacements)
           "YYYY-MM-DD").
  apply reverse_Permutation.
Defined.


(** ** Backslashes in parts that are joined unquoted *)

Section unquoted_backslash.

Import util.

Implicit Types (p : gostring) (st : splitter).

Lemma ContainsAny_none p (chars : gostring) :
  (∀ c, c ∈ chars → c ∉ p) → strings2.ContainsAny p chars = false.
Proof.
  unfold strings2.ContainsAny. induction p as [|b p IH]; intros H; [done|].
  cbn. rewrite IH.
  - rewrite orb_false_r. apply bool_decide_eq_false. intros Hb.
    apply (H b Hb), list_elem_of_here.
  - intros c Hc Hin. apply (H c Hc). by apply list_elem_of_further.
Qed.

(** Outside quotes and without spaces, no part is completed, and every
    byte adds at most one byte to the part being built. *)
Lemma feed_raw_bound p st :
  inQuotes st = false →
  Forall (λ b, (utf8dec.code b < 128)%Z) p → " "%char ∉ p → DQ ∉ p →
  parts (foldl splitRune st (utf8dec.code <$> p)) = parts st
  ∧ length (current (foldl splitRune st (utf8dec.code <$> p)))
    ≤ length (current st) + length p.
Proof.
  intros Hq Hp. revert st Hq.
  induction Hp as [|c p Hc _ IH]; intros st Hq Hsp Hdq.
  - cbn. split; [done|lia].
  - apply not_elem_of_cons in Hsp as [Hsp1 Hsp], Hdq as [Hdq1 Hdq].
    destruct st as [ps cur q e]. cbn in Hq. subst q.
    cbn [fmap list_fmap foldl].
    destruct e.
    + rewrite splitRune_escaped by done.
      destruct (IH (mkSplitter ps (cur ++ [c]) false false) eq_refl Hsp Hdq)
        as [-> Hle].
      split; [done|]. cbn [current parts] in *.
      rewrite length_app in Hle. simpl in *. lia.
    + destruct (decide (c = BS)) as [->|Hbs].
      * rewrite splitRune_BS.
        destruct (IH (mkSplitter ps cur false true) eq_refl Hsp Hdq)
          as [-> Hle].
        split; [done|]. cbn [current parts] in *. simpl. lia.
      * rewrite splitRune_write by done.
        destruct (IH (mkSplitter ps (cur ++ [c]) false false) eq_refl Hsp Hdq)
          as [-> Hle].
        split; [done|]. cbn [current parts] in *.
        rewrite length_app in Hle. simpl in *. lia.
Qed.

(** A backslash read as an escape adds nothing. *)
Lemma feed_raw_strict p ps cur :
  Forall (λ b, (utf8dec.code b < 128)%Z) p → " "%char ∉ p → DQ ∉ p →
  BS ∈ p →
  length (current (foldl splitRune (mkSplitter ps cur false false)
                     (utf8dec.code <$> p)))
  < length cur + length p.
Proof.
  intros Hp. revert cur. induction Hp as [|c p Hc Hp IH]; intros cur Hsp Hdq Hbs.
  - by apply elem_of_nil in Hbs.
  - apply not_elem_of_cons in Hsp as [Hsp1 Hsp], Hdq as [Hdq1 Hdq].
    cbn [fmap list_fmap foldl].
    destruct (decide (c = BS)) as [->|Hne].
    + rewrite splitRune_BS.
      destruct (feed_raw_bound p (mkSplitter ps cur false true) eq_refl Hp
                  Hsp Hdq) as [_ Hle].
      cbn [current] in Hle. simpl. lia.
    + rewrite splitRune_write by done.
      apply elem_of_cons in Hbs as [Hbs|Hbs]; [congruence|].
      specialize (IH (cur ++ [c]) Hsp Hdq Hbs).
      rewrite length_app in IH. simpl in *. lia.
Qed.

End unquoted_backslash.

(** X23: a part that holds a backslash but neither a space nor a double
    quote is joined as it is, and does not come back: from the join of
    that one part [SplitCommand] returns at most one part, and that
    part is shorter. *)
Theorem X23_unquoted_backslash_is_lost (p : gostring) :
  Forall (λ b, (utf8dec.code b < 128)%Z) p →
  BS ∈ p → " "%char ∉ p → DQ ∉ p →
  length (util.SplitCommand (util.JoinCommand [p])) ≤ 1
  ∧ ∀ q, q ∈ util.SplitCommand (util.JoinCommand [p]) → length q < length p.
Proof.
  intros Hp Hbs Hsp Hdq.
  assert (util.JoinCommand [p] = p) as ->.
  { unfold util.JoinCommand, util.quoteArg. cbn [fmap list_fmap strings2.Join].
    rewrite ContainsAny_none; [done|]. intros c Hc.
    apply elem_of_cons in Hc as [->|Hc]; [done|].
    apply elem_of_cons in Hc as [->|Hc]; [done|]. by apply elem_of_nil in Hc. }
  unfold util.SplitCommand. rewrite Range_ascii by done.
  destruct (feed_raw_bound p (util.mkSplitter [] [] false false) eq_refl
              Hp Hsp Hdq) as [Hparts _].
  pose proof (feed_raw_strict p [] [] Hp Hsp Hdq Hbs) as Hlt.
  rewrite Hparts. cbn [util.parts app length] in *.
  destruct (0 <? length _); cbn [length]; (split; [lia|]); intros q Hq.
  - apply list_elem_of_singleton in Hq as ->. exact Hlt.
  - by apply elem_of_nil in Hq.
Qed.

Lemma X23_witness :
  length (util.SplitCommand (util.JoinCommand [["a"%char; BS; "b"%char]])) ≤ 1
  ∧ ∀ q, q ∈ util.SplitCommand (util.JoinCommand [["a"%char; BS; "b"%char]])
         → length q < length ["a"%char; BS; "b"%char].
Proof.
  apply (X23_unquoted_backslash_is_lost ["a"%char; BS; "b"%char]);
    apply (bool_decide_unpack _); vm_compute; exact I.
Defined.


(** ** The session timeout *)

(** X24: the timeout of a session is never applied to its commands.
    After [SetTimeout], whatever the duration, a command returns the
    same result and leaves the same session, but for the stored
    duration, as without it. *)
Theorem X24_SetTimeout_does_not_bound_commands
    (d : Z) (command : gostring) (s : AgiSession) :
  fst (execute command (SetTimeout d s)) = fst (execute command s)
  ∧ snd (execute command (SetTimeout d s))
    = SetTimeout d (snd (execute command s)).
Proof.
  unfold execute, SetTimeout, Fprint. destruct s as [r w e v dbg t c f err].
  cbn [debugMode set_timeout eprint writer reader env variables timeout
       ctx cancelFunc stderr set_writer set_reader].
  destruct dbg;
    cbn [debugMode set_timeout eprint writer reader env variables timeout
         ctx cancelFunc stderr set_writer set_reader];
    (destruct (broken w); [done|]);
    cbn [debugMode set_timeout eprint writer reader env variables timeout
         ctx cancelFunc stderr set_writer set_reader];
    by destruct (bufio.ReadString LF r) as [[line rest] [e'|]].
Qed.


(** ** The speech commands *)

Section speech.

Import mrcp.

Implicit Types (k t x : gostring) (s : AgiSession).








End speech.






(** ** The reply helper never panics *)

Section ParseAGIResult_total.

Lemma SplitN_2_cons (s sep : gostring) :
  ∃ p0 ps, strings.SplitN s sep 2 = p0 :: ps.
Proof.
  unfold strings.SplitN. change (2 <? 0)%Z with false.
  change (Z.to_nat 2) with 2. cbn [strings.splitUpTo].
  destruct (strings.Index s sep); by eexists _, _.
Qed.

(** A string that starts with "(" and ends with ")" holds two bytes at
    least, so that its inside can be cut out. *)
Lemma slice_parenthesized (data : gostring) :
  strings.HasPrefix data "(" = true → strings.HasSuffix data ")" = true →
  ∃ d, slice data 1 (Z.of_nat (length data) - 1) = Ok d.
Proof.
  intros Hp Hs. destruct data as [|c [|c' t]].
  - done.
  - exfalso. unfold strings.HasSuffix in Hs.
    change (String.list_ascii_of_string "(") with ["("%char] in Hp.
    change (reverse (String.list_ascii_of_string ")")) with [")"%char] in Hs.
    change (reverse [c]) with [c] in Hs.
    cbn [strings.HasPrefix] in Hp, Hs.
    rewrite andb_true_r in Hp, Hs.
    apply bool_decide_eq_true in Hp, Hs. congruence.
  - unfold slice.
    assert (((0 <=? Z.of_nat (length (c :: c' :: t)) - 1)
             && (Z.of_nat (length (c :: c' :: t)) - 1
                 <=? Z.of_nat (length (c :: c' :: t))))%Z = true) as ->.
    { apply andb_true_iff. split; apply Z.leb_le; cbn [length]; lia. }
    assert (((0 <=? 1) && (1 <=? Z.of_nat (length (c :: c' :: t)) - 1))%Z
            = true) as ->.
    { apply andb_true_iff. split; apply Z.leb_le; cbn [length]; lia. }
    cbn [negb]. by eexists.
Qed.

Lemma ParseAGIResult_returns (s : gostring) :
  (∃ n d, ParseAGIResult s = Ok (n, d)) ∨ (∃ e, ParseAGIResult s = Err e).
Proof.
  unfold ParseAGIResult.
  destruct (negb (strings.HasPrefix s "200")); [right; by eexists|].
  destruct (negb (strings.HasPrefix _ "result=")); [right; by eexists|].
  destruct (SplitN_2_cons
              (strings.TrimPrefix (strings.TrimPrefix s "200 ") "result=") " ")
    as (p0 & ps & ->).
  cbn [index lookup list_lookup rbind].
  destruct (strconv.Atoi p0) as [e|n]; [right; by eexists|].
  destruct ps as [|p1 ps]; cbn [length]; [left; by eexists _, _|].
  change (1 <? S (S (length ps))) with true.
  cbn [index lookup list_lookup rbind].
  destruct (strings.HasPrefix _ "(") eqn:Hp; [|left; by eexists _, _].
  destruct (strings.HasSuffix _ ")") eqn:Hs; [|left; by eexists _, _].
  cbn [andb]. destruct (slice_parenthesized _ Hp Hs) as [d ->].
  left. by eexists _, _.
Qed.

End ParseAGIResult_total.

(** X27: [ParseAGIResult] returns on every input, with a result and its
    data or with an error: none of its index and slice expressions can
    go out of range (on the bare marker "200", on which [parseResponse]
    panics, it returns an error). *)
Theorem X27_ParseAGIResult_never_panics (s : gostring) :
  ((∃ n d, ParseAGIResult s = Ok (n, d)) ∨ (∃ e, ParseAGIResult s = Err e))
  ∧ ∃ e, ParseAGIResult "200" = Err e.
Proof.
  split; [apply ParseAGIResult_returns|]. eexists. vm_compute. reflexivity.
Qed.
